(** * spotfilling: the spot-filling stage and the time-stepping driver

    A shallow embedding of [src/src/spotfilling.C] (class SPOTFILLING) and of
    the scheduling loop of [src/src/runDGCPM.C] (function main), with the
    properties of the design document stated and settled over it, followed
    by the command line of the driver (function parseArgs) and by further
    properties of the three.

    Conventions.
    - C++ [float] and [double] values are IEEE-754 binary32 and binary64
      numbers, represented by [spec_float] with the operations of the
      Standard Library's [SpecFloat] at precision 24/128 and 53/1024.
    - [aTime] (declared in a submodule that is not part of the sources) is a
      count of seconds, represented by [Z]; adding a number of seconds and
      subtracting two instants are the operations on [Z].
    - [std::vector<float>] is [list spec_float]; a GRID is a list of rows,
      indexed [iP] first and [iT] second, as in [mGridN[iP][iT]].  An access
      outside a vector has no defined behaviour in C++; here it makes the
      operation return [None].
    - [argv[1]], ..., [argv[argc-1]] is a [list string]; reading [argv] at
      or after [argc] ends the parse with [PastEnd].
    - The periods and durations that [main] adds to an [aTime] ([dt], [T],
      [sStartDt], [sStopDt]) are [double]s in the source and whole numbers
      of seconds in [Sched.Options]: the driver is modelled for the runs in
      which they are whole numbers.  [Run.options_of] gives the options of
      such a run from the globals that [parseArgs] leaves, and none for a
      period or duration that is a fraction, an infinity or a NaN. *)

From Stdlib Require Import ZArith Lia Bool List Ascii String.
From Stdlib Require Import Floats.SpecFloat.
From stdpp Require Import base option list.

Local Open Scope Z_scope.

(* ===================================================================== *)
(** * IEEE arithmetic of the two C++ floating-point types                 *)
(* ===================================================================== *)

Module Ieee.

(** [float]: binary32. *)
Definition fadd : spec_float -> spec_float -> spec_float := SFadd 24 128.
Definition fsub : spec_float -> spec_float -> spec_float := SFsub 24 128.
Definition fmul : spec_float -> spec_float -> spec_float := SFmul 24 128.
Definition fdiv : spec_float -> spec_float -> spec_float := SFdiv 24 128.
Definition fsqrt : spec_float -> spec_float := SFsqrt 24 128.

(** [double]: binary64. *)
Definition dmul : spec_float -> spec_float -> spec_float := SFmul 53 1024.
Definition ddiv : spec_float -> spec_float -> spec_float := SFdiv 53 1024.

(** Comparisons; every comparison with a NaN is false. *)
Definition flt (x y : spec_float) : bool := SFltb x y.
Definition fgt (x y : spec_float) : bool := SFltb y x.
Definition fle (x y : spec_float) : bool := SFleb x y.

(** Conversions.  [float] to [double] is exact (the mantissa is only
    re-aligned); [double] to [float] rounds to nearest, ties to even. *)
Definition to_double (x : spec_float) : spec_float :=
  match x with
  | S754_finite s m e => binary_normalize 53 1024 (cond_Zopp s (Zpos m)) e s
  | _ => x
  end.

Definition to_float (x : spec_float) : spec_float :=
  match x with
  | S754_finite s m e => binary_normalize 24 128 (cond_Zopp s (Zpos m)) e s
  | _ => x
  end.

(** Integer literals converted to [float] and to [double]. *)
Definition f_of_Z (z : Z) : spec_float := binary_normalize 24 128 z 0 false.
Definition d_of_Z (z : Z) : spec_float := binary_normalize 53 1024 z 0 false.

(** [M_PI] of <math.h>: the double nearest to pi, 0x400921FB54442D18. *)
Definition M_PI : spec_float := S754_finite false 7074237752028440 (-51).

(** A stand-in for [sin] of <math.h> in the concrete runs below: the
    Taylor polynomial of degree 11 at 0, evaluated in [double] by Horner's
    rule.  The properties of the stage are proved for every function in the
    place of [sin]. *)
Definition dsub : spec_float -> spec_float -> spec_float := SFsub 53 1024.

Definition sin_series (x : spec_float) : spec_float :=
  let x2 := dmul x x in
  let one := d_of_Z 1 in
  let h5 := dsub one (ddiv x2 (d_of_Z 110)) in
  let h4 := dsub one (dmul (ddiv x2 (d_of_Z 72)) h5) in
  let h3 := dsub one (dmul (ddiv x2 (d_of_Z 42)) h4) in
  let h2 := dsub one (dmul (ddiv x2 (d_of_Z 20)) h3) in
  let h1 := dsub one (dmul (ddiv x2 (d_of_Z 6)) h2) in
  dmul x h1.

(** A value is finite when it is neither an infinity nor a NaN. *)
Definition is_finite (x : spec_float) : bool :=
  match x with
  | S754_zero _ | S754_finite _ _ _ => true
  | S754_infinity _ | S754_nan => false
  end.

Definition is_zero (x : spec_float) : bool :=
  match x with
  | S754_zero _ => true
  | _ => false
  end.

End Ieee.

(* ===================================================================== *)
(** * The spot-filling stage ([src/src/spotfilling.C])                    *)
(* ===================================================================== *)

Module Spot.
Import Ieee.

(** Modelled from the spec: the class [aTime] is declared in a submodule
    that is not part of the sources; the design document describes the
    times of the stage as simulated-time instants compared with [<=]. *)
Definition aTime := Z.

(** Modelled from the spec: the type GRID is declared in a submodule that
    is not part of the sources; the design document describes a grid as a
    two-dimensional field indexed by (longitude index, colatitude index). *)
Abbreviation GRID := (list (list spec_float)).

(** The data members of SPOTFILLING, with [fMax], the member of the base
    class FILLING that the stage reads. *)
Record SPOTFILLING : Type := mkSpot {
  t : aTime;
  tStart : aTime;
  tEnd : aTime;
  tCenter : spec_float;
  pCenter : spec_float;
  R : spec_float;
  f : spec_float;
  fMax : spec_float
}.

(** The arguments of [filling], all passed by reference. *)
Record Args : Type := mkArgs {
  vR : list spec_float;
  vT : list spec_float;
  vP : list spec_float;
  mGridN : GRID;
  mGridDen : GRID;
  mGridVol : GRID;
  mGridOc : GRID;
  mGridBi : GRID
}.

(** [SPOTFILLING::setSpot] *)
Definition setSpot (o : SPOTFILLING) (tStart' tEnd' : aTime)
    (t' p' r' f' : spec_float) : SPOTFILLING :=
  {| t := t o; tStart := tStart'; tEnd := tEnd';
     tCenter := t'; pCenter := p'; R := r'; f := f'; fMax := fMax o |}.

(** [SPOTFILLING::setTime] *)
Definition setTime (o : SPOTFILLING) (time : aTime) : SPOTFILLING :=
  {| t := time; tStart := tStart o; tEnd := tEnd o;
     tCenter := tCenter o; pCenter := pCenter o; R := R o; f := f o;
     fMax := fMax o |}.

(** [g[iP][iT]], read and written. *)
Definition grid_get (g : GRID) (iP iT : nat) : option spec_float :=
  row ← g !! iP; row !! iT.

Definition grid_set (g : GRID) (iP iT : nat) (x : spec_float) : GRID :=
  alter (fun row => <[iT := x]> row) iP g.

Definition set_N_Den (a : Args) (n d : GRID) : Args :=
  {| vR := vR a; vT := vT a; vP := vP a; mGridN := n; mGridDen := d;
     mGridVol := mGridVol a; mGridOc := mGridOc a; mGridBi := mGridBi a |}.

(** [for(i=0;i<n;i++) body], the body run for 0, 1, ..., n-1 in turn. *)
Fixpoint for_upto {A : Type} (body : nat -> A -> option A) (n : nat) (a : A)
    : option A :=
  match n with
  | O => Some a
  | S k => a' ← for_upto body k a; body k a'
  end.

(** Line 74: [float RE=6400]. *)
Definition RE : spec_float := f_of_Z 6400.

(** Line 80: [dT=(vT[iT]-tCenter)/180*M_PI*RE].  The difference and the
    division by 180 are in [float]; the products with [M_PI] are in
    [double]; the assignment rounds to [float]. *)
Definition dT_of (vt tc : spec_float) : spec_float :=
  to_float (dmul (dmul (to_double (fdiv (fsub vt tc) (f_of_Z 180))) M_PI)
                 (to_double RE)).

(** Lines 82-85: the two successive tests on the longitude difference. *)
Definition wrap_dP (dP : spec_float) : spec_float :=
  let dP := if fgt dP (f_of_Z 180) then fsub dP (f_of_Z 360) else dP in
  if flt dP (f_of_Z (-180)) then fadd dP (f_of_Z 360) else dP.

(** Lines 81-85: [dP=vP[iP]-pCenter] followed by the two tests. *)
Definition dLon (vp pc : spec_float) : spec_float := wrap_dP (fsub vp pc).

(** The arguments that the stage must leave as the baseline left them. *)
Definition frame (a a' : Args) : Prop :=
  vR a' = vR a /\ vT a' = vT a /\ vP a' = vP a /\
  mGridVol a' = mGridVol a /\ mGridOc a' = mGridOc a /\
  mGridBi a' = mGridBi a.

(** A grid has a cell for every index of [vP] and every index of [vT]. *)
Definition covers (g : GRID) (nP nT : nat) : Prop :=
  forall iP iT, (iP < nP)%nat -> (iT < nT)%nat -> is_Some (grid_get g iP iT).

Definition well_dimensioned (a : Args) : Prop :=
  covers (mGridN a) (length (vP a)) (length (vT a)) /\
  covers (mGridDen a) (length (vP a)) (length (vT a)) /\
  covers (mGridVol a) (length (vP a)) (length (vT a)) /\
  covers (mGridBi a) (length (vP a)) (length (vT a)).

Section Stage.
(** [sin] of <math.h>, on doubles. *)
Variable sin : spec_float -> spec_float.
(** The call of the saturation object attached to the stage (the pointer
    [saturation] of the base class, applied to a double). *)
Variable saturation : spec_float -> spec_float.
(** [FILLING::filling], the baseline of the base class, called on the same
    object: the function from the arguments on entry to the arguments on
    return. *)
Variable FILLING_filling : SPOTFILLING -> Args -> spec_float -> Args.

(** Line 86: [dP=dP/180*M_PI*RE*sin(vT[iT]/180*M_PI)]. *)
Definition dP_of (vt vp pc : spec_float) : spec_float :=
  to_float
    (dmul (dmul (dmul (to_double (fdiv (dLon vp pc) (f_of_Z 180))) M_PI)
                (to_double RE))
          (sin (dmul (to_double (fdiv vt (f_of_Z 180))) M_PI))).

(** Line 87: [r=sqrt(dT*dT+dP*dP)], the products, the sum and the square
    root in [float]. *)
Definition radius (o : SPOTFILLING) (vt vp : spec_float) : spec_float :=
  let dT := dT_of vt (tCenter o) in
  let dP := dP_of vt vp (pCenter o) in
  fsqrt (fadd (fmul dT dT) (fmul dP dP)).

(** Line 90: [r<R]. *)
Definition in_spot (o : SPOTFILLING) (vt vp : spec_float) : bool :=
  flt (radius o vt vp) (R o).

(** Line 67: the saturation object applied to
    [1/sin(tCenter/180*M_PI)/sin(tCenter/180*M_PI)]. *)
Definition dSat (o : SPOTFILLING) : spec_float :=
  let s := sin (dmul (to_double (fdiv (tCenter o) (f_of_Z 180))) M_PI) in
  saturation (ddiv (ddiv (d_of_Z 1) s) s).

(** Lines 68-69. *)
Definition sSat (o : SPOTFILLING) : spec_float := fmul (f o) (dSat o).
Definition sFMax (o : SPOTFILLING) : spec_float := fmul (f o) (fMax o).

(** Line 91: [flux=(sSat-mGridDen[iP][iT])/sSat*sFMax]. *)
Definition flux (o : SPOTFILLING) (den : spec_float) : spec_float :=
  fmul (fdiv (fsub (sSat o) den) (sSat o)) (sFMax o).

(** Line 92: the new value of [mGridN[iP][iT]]. *)
Definition inject (o : SPOTFILLING) (n den bi dt : spec_float)
    : spec_float :=
  fadd n (fdiv (fmul (flux o den) dt) bi).

(** Lines 79-94: the body of the two loops for one cell. *)
Definition spot_cell (o : SPOTFILLING) (dt : spec_float) (iT iP : nat)
    (a : Args) : option Args :=
  vt ← vT a !! iT;
  vp ← vP a !! iP;
  if in_spot o vt vp then
    den ← grid_get (mGridDen a) iP iT;
    n ← grid_get (mGridN a) iP iT;
    bi ← grid_get (mGridBi a) iP iT;
    let n' := inject o n den bi dt in
    vol ← grid_get (mGridVol a) iP iT;
    Some (set_N_Den a (grid_set (mGridN a) iP iT n')
                      (grid_set (mGridDen a) iP iT (fdiv n' vol)))
  else Some a.

(** Lines 77-95: the two nested loops. *)
Definition overlay (o : SPOTFILLING) (dt : spec_float) (a : Args)
    : option Args :=
  for_upto
    (fun iT a1 => for_upto (fun iP a2 => spot_cell o dt iT iP a2)
                           (length (vP a)) a1)
    (length (vT a)) a.

(** Whether the cell [iP][iT] of the arguments [a] is within the radius,
    and the values that lines 91-93 give to its N and to its Den. *)
Definition cell_in_spot (o : SPOTFILLING) (a : Args) (iP iT : nat) : bool :=
  match vT a !! iT, vP a !! iP with
  | Some vt, Some vp => in_spot o vt vp
  | _, _ => false
  end.

Definition new_N (o : SPOTFILLING) (dt : spec_float) (a : Args)
    (iP iT : nat) : option spec_float :=
  den ← grid_get (mGridDen a) iP iT;
  n ← grid_get (mGridN a) iP iT;
  bi ← grid_get (mGridBi a) iP iT;
  Some (inject o n den bi dt).

Definition new_Den (o : SPOTFILLING) (dt : spec_float) (a : Args)
    (iP iT : nat) : option spec_float :=
  n' ← new_N o dt a iP iT;
  vol ← grid_get (mGridVol a) iP iT;
  Some (fdiv n' vol).

(** The state of the two loops once the cells selected by [done] have been
    visited, [a] being the arguments on entry of the loops. *)
Definition visited (o : SPOTFILLING) (dt : spec_float) (a : Args)
    (done : nat -> nat -> bool) (a' : Args) : Prop :=
  frame a a' /\
  forall iP iT,
    grid_get (mGridN a') iP iT
      = (if done iP iT && cell_in_spot o a iP iT then new_N o dt a iP iT
         else grid_get (mGridN a) iP iT) /\
    grid_get (mGridDen a') iP iT
      = (if done iP iT && cell_in_spot o a iP iT then new_Den o dt a iP iT
         else grid_get (mGridDen a) iP iT).

(** Line 64: [tStart<=t&&t<=tEnd]. *)
Definition active (o : SPOTFILLING) : bool :=
  (tStart o <=? t o) && (t o <=? tEnd o).

(** [SPOTFILLING::filling]: the arguments on return and the lines
    written to the standard output. *)
Definition filling (o : SPOTFILLING) (a : Args) (dt : spec_float)
    : option (Args * list string) :=
  let a1 := FILLING_filling o a dt in
  if active o then
    a2 ← overlay o dt a1;
    Some (a2, ["In spot time interval"%string])
  else Some (a1, []).

End Stage.

End Spot.


(* ===================================================================== *)
(** * The time-stepping driver ([src/src/runDGCPM.C], function main)      *)
(* ===================================================================== *)

Module Sched.
Import Ieee.

Definition aTime := Spot.aTime.

(** Modelled from the spec: one record of the forcing index, a timestamp
    and a scalar index value ([kp[i].getTime()], [kp[i].getKp()]); the
    classes KP and KPS are declared in a submodule that is not part of the
    sources. *)
Record KP : Type := mkKP {
  getTime : aTime;
  getKp : spec_float
}.

(** Modelled from the spec: the sample cursor.  Class SAMPLE is declared in
    a submodule that is not part of the sources; the design document says of
    the sample-write stream that it is driven by an external sample cursor
    and that servicing it adds its fixed period.  [sample_getTime] is
    [samples->getTime()], [sample_incr] is the increment [++] of the cursor. *)
Record SAMPLE : Type := mkSample {
  sTime : aTime;
  sPeriod : Z
}.

Definition sample_getTime (c : SAMPLE) : aTime := sTime c.

Definition sample_incr (c : SAMPLE) : SAMPLE :=
  {| sTime := sTime c + sPeriod c; sPeriod := sPeriod c |}.

(** What the loop reads and never writes.  [dt] is the number of seconds
    that line 204 adds to the due time of the state-write stream: the
    global [dt] of line 74 is a [double], and the loop is modelled for the
    runs in which it is a whole number of seconds. *)
Record Env : Type := mkEnv {
  kp : list KP;
  tStop : aTime;
  dt : Z
}.

(** The variables of the loop.  [f] is [None] while the pointer has not
    been assigned; [samples] is [None] when the pointer is NULL. *)
Record State : Type := mkState {
  t : aTime;
  tNext : aTime;
  tFilling : aTime;
  iKp : Z;
  tKp : aTime;
  tWriteState : aTime;
  tWriteSample : aTime;
  f : option Spot.SPOTFILLING;
  samples : option SAMPLE
}.

(** The ways an iteration leaves defined behaviour. *)
Inductive fault : Type :=
| UninitializedPointer
| NullPointer
| KpOutOfRange.

Inductive result (A : Type) : Type :=
| Ok (a : A)
| Fault (e : fault).

Arguments Ok {A} a.
Arguments Fault {A} e.

(** The calls the loop makes, in the order it makes them.  A call that
    services a stream records the clock ([now]) and the due time of the
    stream that the guard compared it with ([due]). *)
Inductive event : Type :=
| SetTime (time : aTime)
| Advance (d : Z)
| PrintTime (time : aTime)
| SetEPot (now due : aTime) (kpv : spec_float)
| WriteState (now due : aTime)
| WriteSamples (now due : aTime).

(** A piece of the loop body: the calls it makes and the state it leaves. *)
Definition step : Type := State -> list event * result State.

Definition and_then (a b : step) : step :=
  fun s =>
    match a s with
    | (ev, Ok s') => let (ev', r) := b s' in (ev ++ ev', r)
    | (ev, Fault x) => (ev, Fault x)
    end.

Notation "a >>> b" := (and_then a b) (at level 62, right associativity).

(** [kp[i]] for an [int] index. *)
Definition kp_at (e : Env) (i : Z) : option KP :=
  if i <? 0 then None else kp e !! Z.to_nat i.

(** Line 177: [f->setTime(t)]. *)
Definition call_setTime : step :=
  fun s =>
    match f s with
    | None => ([], Fault UninitializedPointer)
    | Some o =>
        ([SetTime (t s)],
         Ok {| t := t s; tNext := tNext s; tFilling := tFilling s;
               iKp := iKp s; tKp := tKp s; tWriteState := tWriteState s;
               tWriteSample := tWriteSample s;
               f := Some (Spot.setTime o (t s)); samples := samples s |})
    end.

(** Line 178: [tFilling+=300]. *)
Definition bump_tFilling : step :=
  fun s =>
    ([], Ok {| t := t s; tNext := tNext s; tFilling := tFilling s + 300;
               iKp := iKp s; tKp := tKp s; tWriteState := tWriteState s;
               tWriteSample := tWriteSample s; f := f s;
               samples := samples s |}).

(** Lines 180-184: [if(tNext-t>0){ m.advance(tNext-t); t=tNext; }]. *)
Definition advance_model : step :=
  fun s =>
    if 0 <? tNext s - t s then
      ([Advance (tNext s - t s)],
       Ok {| t := tNext s; tNext := tNext s; tFilling := tFilling s;
             iKp := iKp s; tKp := tKp s; tWriteState := tWriteState s;
             tWriteSample := tWriteSample s; f := f s;
             samples := samples s |})
    else ([], Ok s).

(** Line 186: [printTime(t)]. *)
Definition print_time : step := fun s => ([PrintTime (t s)], Ok s).

Definition set_kp (s : State) (i : Z) (tk : aTime) : State :=
  {| t := t s; tNext := tNext s; tFilling := tFilling s;
     iKp := i; tKp := tk; tWriteState := tWriteState s;
     tWriteSample := tWriteSample s; f := f s; samples := samples s |}.

(** Lines 188-199: the forcing stream. *)
Definition update_kp (e : Env) : step :=
  fun s =>
    if tKp s <=? t s then
      match kp_at e (iKp s) with
      | None => ([], Fault KpOutOfRange)
      | Some r =>
          let ev := [SetEPot (t s) (tKp s) (getKp r)] in
          let i := iKp s + 1 in
          if Z.of_nat (length (kp e)) <=? i then
            (ev, Ok (set_kp s i (tStop e + 1)))
          else
            match kp_at e i with
            | None => (ev, Fault KpOutOfRange)
            | Some r' => (ev, Ok (set_kp s i (getTime r')))
            end
      end
    else ([], Ok s).

(** Lines 201-205: the state-write stream. *)
Definition write_state (e : Env) : step :=
  fun s =>
    if tWriteState s <=? t s then
      ([WriteState (t s) (tWriteState s)],
       Ok {| t := t s; tNext := tNext s; tFilling := tFilling s;
             iKp := iKp s; tKp := tKp s;
             tWriteState := tWriteState s + dt e;
             tWriteSample := tWriteSample s; f := f s;
             samples := samples s |})
    else ([], Ok s).

(** Lines 207-210 with [writeSamples] (lines 472-476): the sample-write
    stream. *)
Definition write_sample : step :=
  fun s =>
    if tWriteSample s <=? t s then
      match samples s with
      | None => ([], Fault NullPointer)
      | Some c =>
          let c' := sample_incr c in
          ([WriteSamples (t s) (tWriteSample s)],
           Ok {| t := t s; tNext := tNext s; tFilling := tFilling s;
                 iKp := iKp s; tKp := tKp s; tWriteState := tWriteState s;
                 tWriteSample := sample_getTime c'; f := f s;
                 samples := Some c' |})
      end
    else ([], Ok s).

(** Lines 212-218: the next wake time. *)
Definition next_time (s : State) : aTime :=
  let n := tWriteSample s in
  let n := if tWriteState s <? n then tWriteState s else n in
  let n := if tKp s <? n then tKp s else n in
  if tFilling s <? n then tFilling s else n.

Definition set_tNext : step :=
  fun s =>
    ([], Ok {| t := t s; tNext := next_time s; tFilling := tFilling s;
               iKp := iKp s; tKp := tKp s; tWriteState := tWriteState s;
               tWriteSample := tWriteSample s; f := f s;
               samples := samples s |}).

(** Lines 176-218: one iteration of the loop. *)
Definition body (e : Env) : step :=
  call_setTime >>> bump_tFilling >>> advance_model >>> print_time >>>
  update_kp e >>> write_state e >>> write_sample >>> set_tNext.

(** How a run of the loop ends: the condition failed ([Finished]), an
    iteration left defined behaviour ([Stopped]), or the iterations allowed
    were used up with the condition still true ([Running]). *)
Inductive outcome : Type :=
| Finished (s : State)
| Stopped (x : fault)
| Running (s : State).

(** Line 175: [for(;tNext<=tStop;) body], for at most [fuel] iterations. *)
Fixpoint loop (e : Env) (fuel : nat) (s : State) : list event * outcome :=
  match fuel with
  | O => if tNext s <=? tStop e then ([], Running s) else ([], Finished s)
  | S k =>
      if tNext s <=? tStop e then
        match body e s with
        | (ev, Ok s') => let (ev', r) := loop e k s' in (ev ++ ev', r)
        | (ev, Fault x) => (ev, Stopped x)
        end
      else ([], Finished s)
  end.

(** The globals that [parseArgs] leaves (lines 71-90), with the records
    loaded from the input files.  The periods and durations [dt], [T],
    [sStartDt] and [sStopDt] are [double]s in the source; here they are the
    whole numbers of seconds of the runs that are modelled, and the four
    [double]s of the spot are the [float]s that [setSpot] receives. *)
Record Options : Type := mkOptions {
  arg_kp : list KP;
  arg_tStart : aTime;
  arg_tStop : aTime;
  arg_tOut : aTime;
  arg_dt : Z;
  arg_T : Z;
  arg_filling : bool;
  arg_fMax : spec_float;
  arg_samples : bool;
  arg_sStartDt : Z;
  arg_sStopDt : Z;
  arg_sT : spec_float;
  arg_sP : spec_float;
  arg_sR : spec_float;
  arg_sF : spec_float
}.

Definition bind {A B : Type} (r : result A) (k : A -> result B) : result B :=
  match r with
  | Ok a => k a
  | Fault x => Fault x
  end.

Definition kp_index (l : list KP) (i : Z) : result KP :=
  match (if i <? 0 then None else l !! Z.to_nat i) with
  | Some r => Ok r
  | None => Fault KpOutOfRange
  end.

Section Main.
(** [kp.find(tStart)]: class KPS is not part of the sources. *)
Variable kp_find : list KP -> aTime -> Z.

(** Lines 102-114: the start, stop and output-start times. *)
Definition start_time (a : Options) : result aTime :=
  if arg_tStart a <? 1 then
    bind (kp_index (arg_kp a) 0) (fun r => Ok (getTime r))
  else Ok (arg_tStart a).

Definition stop_time (a : Options) (tStart : aTime) : result aTime :=
  if arg_tStop a <? tStart then
    if arg_T a <? 0 then
      bind (kp_index (arg_kp a) (Z.of_nat (length (arg_kp a)) - 1))
           (fun r => Ok (getTime r))
    else Ok (tStart + arg_T a)
  else Ok (arg_tStop a).

Definition out_time (a : Options) (tStart : aTime) : aTime :=
  if arg_tOut a <? 1 then tStart else arg_tOut a.

(** Lines 129-139: the pointer [f], assigned only when [filling==1]. *)
Definition make_filling (a : Options) (tStart : aTime)
    : option Spot.SPOTFILLING :=
  if arg_filling a then
    Some (Spot.setSpot
            (Spot.mkSpot 0 0 0 (S754_zero false) (S754_zero false)
                         (S754_zero false) (S754_zero false) (arg_fMax a))
            (tStart + arg_sStartDt a) (tStart + arg_sStopDt a)
            (arg_sT a) (arg_sP a) (arg_sR a) (arg_sF a))
  else None.

(** Lines 93-173: the state in which the loop is entered. *)
Definition main_init (a : Options) : result (Env * State) :=
  bind (start_time a) (fun tStart =>
  bind (stop_time a tStart) (fun tStop' =>
  let tOut := out_time a tStart in
  let i := kp_find (arg_kp a) tStart in
  bind (kp_index (arg_kp a) i) (fun r =>
  let smp := if arg_samples a then Some (mkSample tOut (arg_dt a)) else None in
  let tWriteSample' :=
    match smp with
    | Some c => sample_getTime c
    | None => tStop' + 1
    end in
  let tWriteState' :=
    match smp with
    | Some _ => tStop' + 1
    | None => tOut
    end in
  Ok (mkEnv (arg_kp a) tStop' (arg_dt a),
      mkState tStart tStart tStart i (getTime r) tWriteState' tWriteSample'
              (make_filling a tStart) smp)))).

(** Lines 92-219: [main] up to the end of the loop. *)
Definition main (fuel : nat) (a : Options) : list event * outcome :=
  match main_init a with
  | Ok (e, s) => loop e fuel s
  | Fault x => ([], Stopped x)
  end.

End Main.

(** The condition under which the loop is entered on time: the clock is
    not after the next wake time, the next wake time is not after any due
    time, the two periods are not negative, the forcing records are in
    non-decreasing time order, [tKp] is the time of record [iKp] while there
    is one, and [tWriteSample] is the time of the sample cursor. *)
Fixpoint nondecreasing (l : list aTime) : bool :=
  match l with
  | a :: (b :: _) as tl => (a <=? b) && nondecreasing tl
  | _ => true
  end.

Definition on_time (e : Env) (s : State) : bool :=
  (t s <=? tNext s) && (tNext s <=? tFilling s) && (tNext s <=? tKp s)
  && (tNext s <=? tWriteState s) && (tNext s <=? tWriteSample s)
  && (0 <=? dt e) && nondecreasing (map getTime (kp e))
  && match kp_at e (iKp s) with
     | Some r => getTime r =? tKp s
     | None => true
     end
  && match samples s with
     | Some c => (sTime c =? tWriteSample s) && (0 <=? sPeriod c)
     | None => true
     end.

(** The advances an iteration made, and the calls that serviced a stream. *)
Definition advances (ev : list event) : list Z :=
  omap (fun x => match x with Advance d => Some d | _ => None end) ev.

Definition serviced (x : event) : option (aTime * aTime) :=
  match x with
  | SetEPot now due _ | WriteState now due | WriteSamples now due =>
      Some (now, due)
  | _ => None
  end.

(** A servicing call is guarded when its stream was due, and punctual when
    its stream was due exactly at the clock. *)
Definition guarded (x : event) : Prop :=
  forall now due, serviced x = Some (now, due) -> due <= now.

Definition punctual (x : event) : Prop :=
  forall now due, serviced x = Some (now, due) -> due = now.

End Sched.


(* ===================================================================== *)
(** * Concrete inputs                                                     *)
(* ===================================================================== *)

Module Examples.
Import Ieee.

(** ** Calls of the stage *)

(** A spot centred at colatitude 30 and local time 315 degrees, of radius
    1000 km and factor 10, active from 0 to 100; [fMax] is 2e12. *)
Definition spot_at (time : Z) : Spot.SPOTFILLING :=
  Spot.mkSpot time 0 100 (f_of_Z 30) (f_of_Z 315) (f_of_Z 1000) (f_of_Z 10)
    (f_of_Z 2000000000000).

(** One colatitude (30) and two local times: 315, the centre of the spot,
    and 135, on the opposite meridian. *)
Definition two_cells : Spot.Args :=
  Spot.mkArgs [f_of_Z 4] [f_of_Z 30] [f_of_Z 315; f_of_Z 135]
    [[f_of_Z 1000]; [f_of_Z 1000]] [[f_of_Z 100]; [f_of_Z 100]]
    [[f_of_Z 10]; [f_of_Z 10]] [[f_of_Z 1]; [f_of_Z 1]]
    [[f_of_Z 50]; [f_of_Z 50]].

(** Stand-ins for the collaborators: a baseline that leaves its arguments
    as they are, a saturation curve that is constant, and one that returns
    zero. *)
Definition baseline_id (o : Spot.SPOTFILLING) (a : Spot.Args)
    (dt : spec_float) : Spot.Args := a.
Definition saturation_500 (x : spec_float) : spec_float := f_of_Z 500.
Definition saturation_0 (x : spec_float) : spec_float := S754_zero false.

(** ** Runs of the driver *)

(** An index file with two records three hours apart; [kp.find] returns the
    first record, whose time is the start time of the runs below. *)
Definition two_records : list Sched.KP :=
  [Sched.mkKP 10800 (f_of_Z 2); Sched.mkKP 21600 (f_of_Z 3)].

Definition find_first (l : list Sched.KP) (tStart : Sched.aTime) : Z := 0.

(** Line 89: [sStartDt=1e31,sStopDt=-1e31], the spot when no option sets
    it. *)
Definition sStartDt_default : Z := 10000000000000000000000000000000.
Definition sStopDt_default : Z := -10000000000000000000000000000000.

(** [runDGCPM -f 2e12 10 1 -dt 100 -T 1000 kp.wdc]: images every 100 s for
    1000 s, the spot left at its defaults. *)
Definition run_dt100 : Sched.Options :=
  Sched.mkOptions two_records 0 0 0 100 1000 true (f_of_Z 2000000000000)
    false sStartDt_default sStopDt_default
    (f_of_Z 30) (f_of_Z 315) (f_of_Z 1000) (f_of_Z 10).

Definition env_dt100 : Sched.Env := Sched.mkEnv two_records 11800 100.

Definition spot_default (time : Z) : Spot.SPOTFILLING :=
  Spot.mkSpot time (10800 + sStartDt_default) (10800 + sStopDt_default)
    (f_of_Z 30) (f_of_Z 315) (f_of_Z 1000) (f_of_Z 10)
    (f_of_Z 2000000000000).

(** The state of that run on entry of the loop and after one and two
    iterations. *)
Definition s0_dt100 : Sched.State :=
  Sched.mkState 10800 10800 10800 0 10800 10800 11801
    (Some (spot_default 0)) None.

Definition s1_dt100 : Sched.State :=
  Sched.mkState 10800 10900 11100 1 21600 10900 11801
    (Some (spot_default 10800)) None.

Definition s2_dt100 : Sched.State :=
  Sched.mkState 10900 11000 11400 1 21600 11000 11801
    (Some (spot_default 10800)) None.

(** The loop with the four streams due at 120 (sample-write), 300
    (spot-refresh), 900 (state-write) and 300 (forcing), the clock at 0 and
    the next wake time at their minimum. *)
Definition env_four_streams : Sched.Env := Sched.mkEnv two_records 899 120.

Definition s_four_streams : Sched.State :=
  Sched.mkState 0 120 300 1 300 900 120
    (Some (spot_default 0)) (Some (Sched.mkSample 120 120)).

Definition s_four_streams_next : Sched.State :=
  Sched.mkState 120 240 600 1 300 900 240
    (Some (spot_default 0)) (Some (Sched.mkSample 240 120)).

(** The run [run_dt100] without [-f]: the pointer [f] is never assigned. *)
Definition run_no_filling : Sched.Options :=
  Sched.mkOptions two_records 0 0 0 100 1000 false (f_of_Z 2000000000000)
    false sStartDt_default sStopDt_default
    (f_of_Z 30) (f_of_Z 315) (f_of_Z 1000) (f_of_Z 10).

Definition s0_no_filling : Sched.State :=
  Sched.mkState 10800 10800 10800 0 10800 10800 11801 None None.

End Examples.


(* ===================================================================== *)
(** * Further definitions for the stage and the driver                  *)
(* ===================================================================== *)

Module SpotAux.
Import Ieee Spot.

(** The dimensions of a grid: the length of each of its rows. *)
Definition shape (g : GRID) : list nat := map length g.

(** A value that is not below zero: a zero of either sign, a positive
    number, plus infinity or a NaN. *)
Definition not_negative (x : spec_float) : bool :=
  match x with
  | S754_finite true _ _ | S754_infinity true => false
  | _ => true
  end.

(** What the overlay keeps of the arguments: everything but the values in
    the two grids it writes, and the dimensions of these. *)
Definition kept (a a' : Args) : Prop :=
  frame a a' /\ shape (mGridN a') = shape (mGridN a) /\
  shape (mGridDen a') = shape (mGridDen a).

End SpotAux.

Module SpotExamples.
Import Ieee.

(** The spot of [Examples.spot_at] with its radius set to zero. *)
Definition spot_no_radius (time : Z) : Spot.SPOTFILLING :=
  Spot.mkSpot time 0 100 (f_of_Z 30) (f_of_Z 315) (S754_zero false)
    (f_of_Z 10) (f_of_Z 2000000000000).

(** Arguments with one local time and no colatitude. *)
Definition no_colatitude : Spot.Args :=
  Spot.mkArgs [f_of_Z 4] [] [f_of_Z 315] [[]] [[]] [[]] [[]] [[]].

End SpotExamples.

Module SchedAux.
Import Sched.

(** The state in which a run of the loop was left, when it did not stop on
    a fault. *)
Definition last_state (o : outcome) : option State :=
  match o with
  | Finished s | Running s => Some s
  | Stopped _ => None
  end.

(** The index values handed to the model by the forcing stream, and the
    clock values printed, in the order of the calls. *)
Definition forcing (ev : list event) : list spec_float :=
  omap (fun x => match x with SetEPot _ _ v => Some v | _ => None end) ev.

Definition printed (ev : list event) : list aTime :=
  omap (fun x => match x with PrintTime time => Some time | _ => None end) ev.

Definition total (l : list Z) : Z := fold_right Z.add 0 l.

(** What holds of the variables whenever the loop started by [main] tests
    its condition: the clock is not after the end of the run unless the
    loop is about to end, a forcing record is there while the forcing stream
    is due within the run, and the stream of the output mode that was not
    chosen is due one second after the end of the run. *)
Definition in_run (e : Env) (s : State) : Prop :=
  (t s <= tStop e \/ tStop e < tNext s) /\
  (tKp s <= tStop e -> is_Some (kp_at e (iKp s))) /\
  (samples s = None -> tWriteSample s = tStop e + 1) /\
  (is_Some (samples s) -> tWriteState s = tStop e + 1).


(** How many more times a stream with a positive [period] can come due up
    to [stop]. *)
Definition slots (stop due period : Z) : nat :=
  if due <=? stop then Z.to_nat ((stop - due) / period + 1) else 0%nat.

(** The forcing records not yet used, while the forcing stream is due
    within the run. *)
Definition kp_left (e : Env) (s : State) : nat :=
  if tKp s <=? tStop e then Z.to_nat (Z.of_nat (length (kp e)) - iKp s)
  else 0%nat.

Definition sample_period (s : State) : Z :=
  match samples s with
  | Some c => sPeriod c
  | None => 1
  end.

(** A bound on the iterations the loop can still make. *)
Definition remaining (e : Env) (s : State) : nat :=
  (slots (tStop e) (tFilling s) 300 + kp_left e s
   + slots (tStop e) (tWriteState s) (dt e)
   + slots (tStop e) (tWriteSample s) (sample_period s))%nat.

(** The output period and the period of the sample cursor are positive, the
    next wake time is not before the earliest due time, and [tWriteSample]
    is the time of the sample cursor. *)
Definition ticking (e : Env) (s : State) : Prop :=
  0 < dt e /\ next_time s <= tNext s /\
  (forall c, samples s = Some c -> sTime c = tWriteSample s /\ 0 < sPeriod c).

End SchedAux.

Module SchedExamples.
Import Ieee Examples.

(** The run [Examples.run_dt100] with [-dt 0]. *)
Definition run_dt0 : Sched.Options :=
  Sched.mkOptions two_records 0 0 0 0 1000 true (f_of_Z 2000000000000)
    false sStartDt_default sStopDt_default
    (f_of_Z 30) (f_of_Z 315) (f_of_Z 1000) (f_of_Z 10).

Definition env_dt0 : Sched.Env := Sched.mkEnv two_records 11800 0.

End SchedExamples.


(* ===================================================================== *)
(** * The command line ([src/src/runDGCPM.C], function parseArgs)       *)
(* ===================================================================== *)

Module Cli.
Import Ieee.

Definition aTime := Spot.aTime.

(** The globals that [parseArgs] writes (runDGCPM.C, lines 71-90). *)
Record Globals : Type := mkGlobals {
  iFiles : list string;
  oFile : string;
  samplesIFile : string;
  dt : spec_float;
  T : spec_float;
  tStart : aTime;
  tStop : aTime;
  tOut : aTime;
  filling : Z;
  fMax : spec_float;
  tauClosed : spec_float;
  tauOpen : spec_float;
  saturation : Z;
  saturationA : spec_float;
  saturationB : spec_float;
  sStartDt : spec_float;
  sStopDt : spec_float;
  sT : spec_float;
  sP : spec_float;
  sR : spec_float;
  sF : spec_float
}.

(** The globals when [main] calls [parseArgs]: the initialisers of lines
    71-90, zero for the variables without one, and [set(0)] for the three
    times (lines 93-95). *)
Definition initial : Globals :=
  {| iFiles := []; oFile := ""; samplesIFile := "";
     dt := d_of_Z 900; T := d_of_Z (-1);
     tStart := 0; tStop := 0; tOut := 0;
     filling := 0; fMax := S754_zero false; tauClosed := S754_zero false;
     tauOpen := S754_zero false;
     saturation := 0; saturationA := S754_zero false;
     saturationB := S754_zero false;
     sStartDt := S754_finite false 8881784197001252 50;
     sStopDt := S754_finite true 8881784197001252 50;
     sT := d_of_Z 30; sP := d_of_Z 315; sR := d_of_Z 1000; sF := d_of_Z 10 |}.

(** The assignments of the option loop. *)
Definition set_tStart (x : aTime) (g : Globals) : Globals :=
  let 'mkGlobals a b c d e _ h i j k l m n o p q r s u v w := g in
  mkGlobals a b c d e x h i j k l m n o p q r s u v w.

Definition set_tStop (x : aTime) (g : Globals) : Globals :=
  let 'mkGlobals a b c d e f _ i j k l m n o p q r s u v w := g in
  mkGlobals a b c d e f x i j k l m n o p q r s u v w.

Definition set_tOut (x : aTime) (g : Globals) : Globals :=
  let 'mkGlobals a b c d e f h _ j k l m n o p q r s u v w := g in
  mkGlobals a b c d e f h x j k l m n o p q r s u v w.

Definition set_dt (x : spec_float) (g : Globals) : Globals :=
  let 'mkGlobals a b c _ e f h i j k l m n o p q r s u v w := g in
  mkGlobals a b c x e f h i j k l m n o p q r s u v w.

Definition set_T (x : spec_float) (g : Globals) : Globals :=
  let 'mkGlobals a b c d _ f h i j k l m n o p q r s u v w := g in
  mkGlobals a b c d x f h i j k l m n o p q r s u v w.

Definition set_oFile (x : string) (g : Globals) : Globals :=
  let 'mkGlobals a _ c d e f h i j k l m n o p q r s u v w := g in
  mkGlobals a x c d e f h i j k l m n o p q r s u v w.

Definition set_filling (x y z : spec_float) (g : Globals) : Globals :=
  let 'mkGlobals a b c d e f h i _ _ _ _ n o p q r s u v w := g in
  mkGlobals a b c d e f h i 1 x y z n o p q r s u v w.

Definition set_saturation (x y : spec_float) (g : Globals) : Globals :=
  let 'mkGlobals a b c d e f h i j k l m _ _ _ q r s u v w := g in
  mkGlobals a b c d e f h i j k l m 1 x y q r s u v w.

Definition set_samplesIFile (x : string) (g : Globals) : Globals :=
  let 'mkGlobals a b _ d e f h i j k l m n o p q r s u v w := g in
  mkGlobals a b x d e f h i j k l m n o p q r s u v w.

Definition set_sStartDt (x : spec_float) (g : Globals) : Globals :=
  let 'mkGlobals a b c d e f h i j k l m n o p _ r s u v w := g in
  mkGlobals a b c d e f h i j k l m n o p x r s u v w.

Definition set_sStopDt (x : spec_float) (g : Globals) : Globals :=
  let 'mkGlobals a b c d e f h i j k l m n o p q _ s u v w := g in
  mkGlobals a b c d e f h i j k l m n o p q x s u v w.

Definition set_sT (x : spec_float) (g : Globals) : Globals :=
  let 'mkGlobals a b c d e f h i j k l m n o p q r _ u v w := g in
  mkGlobals a b c d e f h i j k l m n o p q r x u v w.

Definition set_sP (x : spec_float) (g : Globals) : Globals :=
  let 'mkGlobals a b c d e f h i j k l m n o p q r s _ v w := g in
  mkGlobals a b c d e f h i j k l m n o p q r s x v w.

Definition set_sR (x : spec_float) (g : Globals) : Globals :=
  let 'mkGlobals a b c d e f h i j k l m n o p q r s u _ w := g in
  mkGlobals a b c d e f h i j k l m n o p q r s u x w.

Definition set_sF (x : spec_float) (g : Globals) : Globals :=
  let 'mkGlobals a b c d e f h i j k l m n o p q r s u v _ := g in
  mkGlobals a b c d e f h i j k l m n o p q r s u v x.

(** [iFiles.push_back(x)]. *)
Definition push_back (x : string) (g : Globals) : Globals :=
  let 'mkGlobals a b c d e f h i j k l m n o p q r s u v w := g in
  mkGlobals (a ++ [x]) b c d e f h i j k l m n o p q r s u v w.

(** What [parseArgs] prints before it exits. *)
Inductive message : Type :=
| Usage
| UnknownOption (a : string)
| NoInputFiles
| SaturationNeedsFilling.

(** How [parseArgs] ends: it returns with the globals set, it calls
    [exit], or it reads an operand at or after [argv[argc]] (the null
    pointer that ends [argv], then memory that is not part of it). *)
Inductive parsed : Type :=
| Parsed (g : Globals)
| Exit (code : Z) (msg : message)
| PastEnd.

(** Lines 241-242: the three spellings of the help option. *)
Definition is_help (a : string) : bool :=
  (a =? "-h")%string || (a =? "-help")%string || (a =? "--help")%string.

(** Line 416: [argv[i][0]=='-']. *)
Definition is_option (a : string) : bool :=
  match a with
  | String "-"%char _ => true
  | _ => false
  end.

(** The options of lines 324-415, each of which is followed by operands. *)
Definition operand_options : list string :=
  ["-s"; "-e"; "-so"; "-dt"; "-T"; "-o"; "-filling"; "-f"; "-saturation";
   "-samples"; "-sStart"; "-sStop"; "-sT"; "-sP"; "-sR"; "-sF"]%string.

Section Parse.
(** [atoi] and [atof] of <stdlib.h>, and [aTime::set(yr,mo,dy,hr)]; class
    aTime is declared in a submodule that is not part of the sources. *)
Variable atoi : string -> Z.
Variable atof : string -> spec_float.
Variable aTime_set : Z -> Z -> Z -> Z -> aTime.

(** [tStart.set(yr,mo,dy,hr)] on the four operands read by [atoi]. *)
Definition date (yr mo dy hr : string) : aTime :=
  aTime_set (atoi yr) (atoi mo) (atoi dy) (atoi hr).

(** [atof(x)*86400] stored in a [float]. *)
Definition days (x : string) : spec_float :=
  to_float (dmul (atof x) (d_of_Z 86400)).

(** Lines 323-422: the option loop, on the arguments from [argv[i]] on.
    Each [i++] followed by a use of [argv[i]] takes the next argument. *)
Fixpoint option_loop (args : list string) (g : Globals) : parsed :=
  match args with
  | [] => Parsed g
  | a :: rest =>
      if (a =? "-s")%string then
        match rest with
        | yr :: mo :: dy :: hr :: rest' =>
            option_loop rest' (set_tStart (date yr mo dy hr) g)
        | _ => PastEnd
        end
      else if (a =? "-e")%string then
        match rest with
        | yr :: mo :: dy :: hr :: rest' =>
            option_loop rest' (set_tStop (date yr mo dy hr) g)
        | _ => PastEnd
        end
      else if (a =? "-so")%string then
        match rest with
        | yr :: mo :: dy :: hr :: rest' =>
            option_loop rest' (set_tOut (date yr mo dy hr) g)
        | _ => PastEnd
        end
      else if (a =? "-dt")%string then
        match rest with
        | x :: rest' => option_loop rest' (set_dt (atof x) g)
        | _ => PastEnd
        end
      else if (a =? "-T")%string then
        match rest with
        | x :: rest' => option_loop rest' (set_T (atof x) g)
        | _ => PastEnd
        end
      else if (a =? "-o")%string then
        match rest with
        | x :: rest' => option_loop rest' (set_oFile x g)
        | _ => PastEnd
        end
      else if (a =? "-filling")%string || (a =? "-f")%string then
        match rest with
        | x :: y :: z :: rest' =>
            option_loop rest'
              (set_filling (to_float (atof x)) (days y) (days z) g)
        | _ => PastEnd
        end
      else if (a =? "-saturation")%string then
        match rest with
        | x :: y :: rest' =>
            option_loop rest'
              (set_saturation (to_float (atof x)) (to_float (atof y)) g)
        | _ => PastEnd
        end
      else if (a =? "-samples")%string then
        match rest with
        | x :: rest' => option_loop rest' (set_samplesIFile x g)
        | _ => PastEnd
        end
      else if (a =? "-sStart")%string then
        match rest with
        | x :: rest' => option_loop rest' (set_sStartDt (atof x) g)
        | _ => PastEnd
        end
      else if (a =? "-sStop")%string then
        match rest with
        | x :: rest' => option_loop rest' (set_sStopDt (atof x) g)
        | _ => PastEnd
        end
      else if (a =? "-sT")%string then
        match rest with
        | x :: rest' => option_loop rest' (set_sT (atof x) g)
        | _ => PastEnd
        end
      else if (a =? "-sP")%string then
        match rest with
        | x :: rest' => option_loop rest' (set_sP (atof x) g)
        | _ => PastEnd
        end
      else if (a =? "-sR")%string then
        match rest with
        | x :: rest' => option_loop rest' (set_sR (atof x) g)
        | _ => PastEnd
        end
      else if (a =? "-sF")%string then
        match rest with
        | x :: rest' => option_loop rest' (set_sF (atof x) g)
        | _ => PastEnd
        end
      else if is_option a then Exit 1 (UnknownOption a)
      else option_loop rest (push_back a g)
  end.

(** Lines 237-434: [parseArgs] on [argv[1]], ..., [argv[argc-1]]. *)
Definition parseArgs (args : list string) (g : Globals) : parsed :=
  if existsb is_help args then Exit 0 Usage
  else
    match option_loop args g with
    | Parsed g' =>
        if (length (iFiles g') =? 0)%nat then Exit 1 NoInputFiles
        else if (saturation g' =? 1) && (filling g' =? 0) then
          Exit 1 SaturationNeedsFilling
        else Parsed g'
    | r => r
    end.

End Parse.

End Cli.

Module CliEx.
Import Ieee Cli.

(** Stand-ins for the library functions in the concrete command lines
    below: [atoi] on a string of decimal digits, [atof] through it, and a
    calendar of 31-day months for [aTime::set]. *)
Fixpoint digits (acc : Z) (s : string) : Z :=
  match s with
  | String c s' =>
      let d := Z.of_nat (nat_of_ascii c) - 48 in
      if (0 <=? d) && (d <=? 9) then digits (10 * acc + d) s' else acc
  | EmptyString => acc
  end.

Definition atoi_digits (s : string) : Z := digits 0 s.
Definition atof_digits (s : string) : spec_float := d_of_Z (digits 0 s).
Definition set_31 (yr mo dy hr : Z) : aTime :=
  (((yr * 12 + mo) * 31 + dy) * 24 + hr) * 3600.

(** [runDGCPM -f 2e12 10 1 -dt 100 -T 1000 kp.wdc], the mantissa of [fMax]
    written out. *)
Definition argv_dt100 : list string :=
  ["-f"; "2000000000000"; "10"; "1"; "-dt"; "100"; "-T"; "1000"; "kp.wdc"]%string.

End CliEx.


(* ===================================================================== *)
(** * From the command line to the driver                                 *)
(* ===================================================================== *)

Module Run.
Import Ieee.

(** The value of a [double] that is a whole number, and none for the other
    values (a fraction, an infinity, a NaN). *)
Definition whole (x : spec_float) : option Z :=
  match x with
  | S754_zero _ => Some 0
  | S754_finite s m e =>
      if 0 <=? e then Some (cond_Zopp s (Zpos m * 2 ^ e))
      else if Zpos m mod 2 ^ (- e) =? 0 then
        Some (cond_Zopp s (Zpos m / 2 ^ (- e)))
      else None
  | _ => None
  end.

(** Lines 97-156 of runDGCPM.C: what [main] reads of the globals that
    [parseArgs] left, with the records that [KPS kp(iFiles)] loaded.  The
    periods and durations [dt], [T], [sStartDt] and [sStopDt] are [double]s
    that [main] adds to an [aTime]; there are options for the runs in which
    they are whole numbers of seconds, and none for the others.  [setSpot]
    takes the four [double]s of the spot as [float]s; sampling is on when
    [samplesIFile.size()>0]. *)
Definition options_of (records : list Sched.KP) (g : Cli.Globals)
    : option Sched.Options :=
  dt ← whole (Cli.dt g);
  T ← whole (Cli.T g);
  sStartDt ← whole (Cli.sStartDt g);
  sStopDt ← whole (Cli.sStopDt g);
  Some (Sched.mkOptions records (Cli.tStart g) (Cli.tStop g) (Cli.tOut g)
          dt T (Cli.filling g =? 1) (Cli.fMax g)
          (negb (Cli.samplesIFile g =? "")%string) sStartDt sStopDt
          (to_float (Cli.sT g)) (to_float (Cli.sP g))
          (to_float (Cli.sR g)) (to_float (Cli.sF g))).

End Run.

Module RunEx.
Import Ieee Examples.

(** The globals that [parseArgs] leaves for [CliEx.argv_dt100], the options
    of that run, and the state in which its loop is entered. *)
Definition globals_dt100 : Cli.Globals :=
  Cli.mkGlobals ["kp.wdc"%string] "" "" (d_of_Z 100) (d_of_Z 1000) 0 0 0
    1 (f_of_Z 2000000000000) (f_of_Z 864000) (f_of_Z 86400)
    0 (S754_zero false) (S754_zero false)
    (S754_finite false 8881784197001252 50)
    (S754_finite true 8881784197001252 50)
    (d_of_Z 30) (d_of_Z 315) (d_of_Z 1000) (d_of_Z 10).

Definition options_dt100 : Sched.Options :=
  Sched.mkOptions two_records 0 0 0 100 1000 true (f_of_Z 2000000000000)
    false 9999999999999999635896294965248 (-9999999999999999635896294965248)
    (f_of_Z 30) (f_of_Z 315) (f_of_Z 1000) (f_of_Z 10).

Definition s0_globals_dt100 : Sched.State :=
  Sched.mkState 10800 10800 10800 0 10800 10800 11801
    (Some (Spot.mkSpot 0 9999999999999999635896294976048
             (-9999999999999999635896294954448)
             (f_of_Z 30) (f_of_Z 315) (f_of_Z 1000) (f_of_Z 10)
             (f_of_Z 2000000000000)))
    None.

End RunEx.


(* ===================================================================== *)
(** * Properties of the binary32 arithmetic                               *)
(* ===================================================================== *)

Module IeeeProps.
Import Ieee Spot.

(** ** Mantissas and their number of digits *)

Lemma pos_iter_xO (m d : positive) :
  Zpos (Pos.iter xO m d) = Zpos m * 2 ^ Zpos d.
Proof.
  induction d as [|d IH] using Pos.peano_ind.
  - cbn [Pos.iter]. rewrite Z.pow_1_r. lia.
  - rewrite Pos.iter_succ, Pos2Z.inj_succ, Z.pow_succ_r by lia.
    change (Zpos (Pos.iter xO m d)~0) with (2 * Zpos (Pos.iter xO m d)).
    rewrite IH. lia.
Qed.

Lemma digits_iter_xO (m d : positive) :
  digits2_pos (Pos.iter xO m d) = (digits2_pos m + d)%positive.
Proof.
  induction d as [|d IH] using Pos.peano_ind.
  - cbn [Pos.iter digits2_pos]. lia.
  - rewrite Pos.iter_succ. cbn [digits2_pos]. rewrite IH. lia.
Qed.

Lemma digits_size (p : positive) : digits2_pos p = Pos.size p.
Proof. induction p as [p IH|p IH|]; cbn; congruence. Qed.

Lemma digits_bounds (p : positive) :
  2 ^ (Zpos (digits2_pos p) - 1) <= Zpos p < 2 ^ Zpos (digits2_pos p).
Proof.
  rewrite digits_size.
  pose proof (Pos.size_gt p) as Hgt. pose proof (Pos.size_le p) as Hle.
  apply Pos2Z.pos_lt_pos in Hgt. apply Pos2Z.pos_le_pos in Hle.
  rewrite Pos2Z.inj_pow in Hgt, Hle.
  change (Zpos p~0) with (2 * Zpos p) in Hle.
  replace (Zpos (Pos.size p)) with (Z.succ (Zpos (Pos.size p) - 1)) in Hle
    by lia.
  rewrite Z.pow_succ_r in Hle by lia. lia.
Qed.

Lemma digits_le (p : positive) (n : Z) :
  Zpos p < 2 ^ n -> Zpos (digits2_pos p) <= n.
Proof.
  intros H. destruct (digits_bounds p) as [Hlo _].
  destruct (Z.le_gt_cases (Zpos (digits2_pos p)) n) as [|Hgt]; [assumption | ].
  assert (0 <= n).
  { destruct (Z.le_gt_cases 0 n); [assumption | ].
    rewrite Z.pow_neg_r in H by lia. lia. }
  assert (2 ^ n <= 2 ^ (Zpos (digits2_pos p) - 1))
    by (apply Z.pow_le_mono_r; lia).
  lia.
Qed.

Lemma digits_ge (p : positive) (n : Z) :
  2 ^ (n - 1) <= Zpos p -> n <= Zpos (digits2_pos p).
Proof.
  intros H. destruct (digits_bounds p) as [_ Hhi].
  destruct (Z.le_gt_cases n (Zpos (digits2_pos p))) as [|Hgt]; [assumption | ].
  assert (2 ^ Zpos (digits2_pos p) <= 2 ^ (n - 1))
    by (apply Z.pow_le_mono_r; lia).
  lia.
Qed.

(** Rounding a mantissa that already has 24 digits changes nothing. *)
Lemma binary_round_aux_canonical (s : bool) (q : positive) (e : Z) :
  Zpos (digits2_pos q) = 24 -> -149 <= e <= 104 ->
  binary_round_aux 24 128 s (Zpos q) e loc_Exact = S754_finite s q e.
Proof.
  intros Hd He. unfold binary_round_aux, shr_fexp.
  cbn [Zdigits2 shr_record_of_loc]. rewrite Hd.
  replace (fexp 24 128 (24 + e) - e) with 0
    by (unfold fexp, emin; lia).
  cbn [shr shr_m loc_of_shr_record round_nearest_even Zdigits2].
  rewrite Hd.
  replace (fexp 24 128 (24 + e) - e) with 0
    by (unfold fexp, emin; lia).
  cbn [shr shr_m].
  replace (e <=? 128 - 24) with true by (symmetry; apply Z.leb_le; lia).
  reflexivity.
Qed.

(** Normalising an integer of fewer than 25 digits is exact. *)
Lemma binary_round_exact (s : bool) (p : positive) (e : Z) :
  let d := Zpos (digits2_pos p) in
  d <= 24 -> -149 <= e + d - 24 <= 104 ->
  exists q,
    binary_round 24 128 s p e = S754_finite s q (e + d - 24) /\
    Zpos q = Zpos p * 2 ^ (24 - d).
Proof.
  intros d Hd He. unfold binary_round.
  replace (fexp 24 128 (Zpos (digits2_pos p) + e)) with (e + d - 24)
    by (unfold fexp, emin; fold d; lia).
  unfold shl_align.
  destruct (e + d - 24 - e) as [|k|k] eqn:Hk; [ | lia | ].
  - exists p. replace (e + d - 24) with e by lia.
    split; [apply binary_round_aux_canonical; fold d; lia | ].
    replace (24 - d) with 0 by lia. lia.
  - exists (Pos.iter xO p k). split.
    + apply binary_round_aux_canonical; [ | lia].
      rewrite digits_iter_xO, Pos2Z.inj_add. fold d. lia.
    + rewrite pos_iter_xO. f_equal. f_equal. lia.
Qed.

(** ** Comparisons *)

Lemma SFcompare_antisym (x y : spec_float) :
  SFcompare y x = option_map CompOpp (SFcompare x y).
Proof.
  destruct x as [sx|sx| |sx mx ex], y as [sy|sy| |sy my ey]; cbn;
    try destruct sx; try destruct sy; try reflexivity.
  all: fold (Pos.compare mx my); fold (Pos.compare my mx).
  all: rewrite (Z.compare_antisym ex ey), (Pos.compare_antisym mx my).
  all: destruct (ex ?= ey), (mx ?= my)%positive; reflexivity.
Qed.

Lemma fle_of_not_flt (x c : spec_float) :
  SFltb c x = false -> SFcompare c x <> None -> SFleb x c = true.
Proof.
  unfold SFltb, SFleb. rewrite (SFcompare_antisym c x).
  destruct (SFcompare c x) as [[ | | ]|]; cbn; congruence.
Qed.

Lemma fge_of_not_flt (x c : spec_float) :
  SFltb x c = false -> SFcompare x c <> None -> SFleb c x = true.
Proof.
  unfold SFltb, SFleb. rewrite (SFcompare_antisym x c).
  destruct (SFcompare x c) as [[ | | ]|]; cbn; congruence.
Qed.

Lemma flt_false_of_fle (a b : spec_float) :
  SFleb a b = true -> SFltb b a = false.
Proof.
  unfold SFltb, SFleb. rewrite (SFcompare_antisym a b).
  destruct (SFcompare a b) as [[ | | ]|]; cbn; congruence.
Qed.

Lemma fle_pos_pos (m1 : positive) (e1 : Z) (m2 : positive) (e2 : Z) :
  e1 < e2 \/ (e1 = e2 /\ Zpos m1 <= Zpos m2) ->
  SFleb (S754_finite false m1 e1) (S754_finite false m2 e2) = true.
Proof.
  intros H. unfold SFleb, SFcompare. fold (Pos.compare m1 m2).
  destruct (Z.compare_spec e1 e2); [ | reflexivity | lia].
  destruct (Pos.compare_spec m1 m2); try reflexivity. lia.
Qed.

Lemma fle_neg_neg (m1 : positive) (e1 : Z) (m2 : positive) (e2 : Z) :
  e2 < e1 \/ (e2 = e1 /\ Zpos m2 <= Zpos m1) ->
  SFleb (S754_finite true m1 e1) (S754_finite true m2 e2) = true.
Proof.
  intros H. unfold SFleb, SFcompare. fold (Pos.compare m1 m2).
  destruct (Z.compare_spec e1 e2); [ | lia | reflexivity].
  destruct (Pos.compare_spec m1 m2); try reflexivity. lia.
Qed.

Lemma flt_pos_inv (m1 : positive) (e1 : Z) (m2 : positive) (e2 : Z) :
  SFltb (S754_finite false m1 e1) (S754_finite false m2 e2) = true ->
  e1 < e2 \/ (e1 = e2 /\ Zpos m1 < Zpos m2).
Proof.
  unfold SFltb, SFcompare. fold (Pos.compare m1 m2).
  destruct (Z.compare_spec e1 e2); [ | lia | discriminate].
  destruct (Pos.compare_spec m1 m2); try discriminate. lia.
Qed.

Lemma fle_pos_inv (m1 : positive) (e1 : Z) (m2 : positive) (e2 : Z) :
  SFleb (S754_finite false m1 e1) (S754_finite false m2 e2) = true ->
  e1 < e2 \/ (e1 = e2 /\ Zpos m1 <= Zpos m2).
Proof.
  unfold SFleb, SFcompare. fold (Pos.compare m1 m2).
  destruct (Z.compare_spec e1 e2); [ | lia | discriminate].
  destruct (Pos.compare_spec m1 m2); try discriminate; lia.
Qed.

Lemma flt_neg_inv (m1 : positive) (e1 : Z) (m2 : positive) (e2 : Z) :
  SFltb (S754_finite true m1 e1) (S754_finite true m2 e2) = true ->
  e2 < e1 \/ (e2 = e1 /\ Zpos m2 < Zpos m1).
Proof.
  unfold SFltb, SFcompare. fold (Pos.compare m1 m2).
  destruct (Z.compare_spec e1 e2); [ | discriminate | lia].
  destruct (Pos.compare_spec m1 m2); try discriminate. lia.
Qed.

Lemma fle_neg_inv (m1 : positive) (e1 : Z) (m2 : positive) (e2 : Z) :
  SFleb (S754_finite true m1 e1) (S754_finite true m2 e2) = true ->
  e2 < e1 \/ (e2 = e1 /\ Zpos m2 <= Zpos m1).
Proof.
  unfold SFleb, SFcompare. fold (Pos.compare m1 m2).
  destruct (Z.compare_spec e1 e2); [ | discriminate | lia].
  destruct (Pos.compare_spec m1 m2); try discriminate; lia.
Qed.

(** A canonical binary32 mantissa above the subnormal range has 24
    digits. *)
Lemma bounded_normal (m : positive) (e : Z) :
  bounded 24 128 m e = true -> -149 < e ->
  8388608 <= Zpos m < 16777216.
Proof.
  unfold bounded, canonical_mantissa, fexp, emin. intros H He.
  apply andb_prop in H as [H _]. apply Z.eqb_eq in H.
  assert (Hd : Zpos (digits2_pos m) = 24) by lia.
  pose proof (digits_bounds m) as Hb. rewrite Hd in Hb.
  change (2 ^ (24 - 1)) with 8388608 in Hb.
  change (2 ^ 24) with 16777216 in Hb. exact Hb.
Qed.

(** A value between 180 and 540 in magnitude has one of three exponents. *)
Lemma between_180_540 (m : positive) (e : Z) :
  bounded 24 128 m e = true ->
  -16 < e \/ (-16 = e /\ 11796480 < Zpos m) ->
  e < -14 \/ (e = -14 /\ Zpos m <= 8847360) ->
  (e = -16 /\ 11796480 < Zpos m < 16777216) \/
  (e = -15 /\ 8388608 <= Zpos m < 16777216) \/
  (e = -14 /\ 8388608 <= Zpos m <= 8847360).
Proof.
  intros Hb Hlo Hhi.
  pose proof (bounded_normal m e Hb ltac:(lia)). lia.
Qed.

(** Normalising an integer that stands for at most 180 gives a value of
    magnitude at most 180. *)
Lemma round_small (s : bool) (p : positive) (ez : Z) :
  (ez = -16 /\ Zpos p <= 11796480) \/ (ez = -15 /\ Zpos p <= 5898240) ->
  exists q e',
    binary_round 24 128 s p ez = S754_finite s q e' /\
    (e' < -16 \/ (e' = -16 /\ Zpos q <= 11796480)).
Proof.
  intros H.
  assert (Hd1 : 1 <= Zpos (digits2_pos p)) by lia.
  assert (Hd : Zpos (digits2_pos p) <= ez + 40).
  { destruct H as [[-> H]|[-> H]].
    - apply digits_le. change (2 ^ (-16 + 40)) with 16777216. lia.
    - apply digits_le. change (2 ^ (-15 + 40)) with 33554432. lia. }
  assert (Hd' : ez = -15 -> Zpos (digits2_pos p) <= 23).
  { intros ->. destruct H as [[? _]|[_ H]]; [lia | ].
    apply digits_le. change (2 ^ 23) with 8388608. lia. }
  destruct (binary_round_exact s p ez) as (q & Hq & Hv); [lia | lia | ].
  exists q, (ez + Zpos (digits2_pos p) - 24). split; [exact Hq | ].
  destruct (Z.eq_dec (ez + Zpos (digits2_pos p) - 24) (-16)) as [He|He];
    [right; split; [exact He | ] | left; lia].
  destruct H as [[-> H]|[-> H]].
  - replace (24 - Zpos (digits2_pos p)) with 0 in Hv by lia.
    rewrite Z.pow_0_r in Hv. lia.
  - replace (24 - Zpos (digits2_pos p)) with 1 in Hv by lia.
    rewrite Z.pow_1_r in Hv. lia.
Qed.

Lemma normalize_small (k ez : Z) :
  (ez = -16 /\ -11796480 <= k <= 11796480) \/
  (ez = -15 /\ -5898240 <= k <= 5898240) ->
  let r := binary_normalize 24 128 k ez false in
  SFleb (S754_finite true 11796480 (-16)) r = true /\
  SFleb r (S754_finite false 11796480 (-16)) = true.
Proof.
  intros H r. subst r. destruct k as [|p|p]; cbn [binary_normalize].
  - split; reflexivity.
  - destruct (round_small false p ez) as (q & e' & -> & Hq); [lia | ].
    split; [reflexivity | apply fle_pos_pos; lia].
  - destruct (round_small true p ez) as (q & e' & -> & Hq); [lia | ].
    split; [apply fle_neg_neg; lia | reflexivity].
Qed.

Lemma fsub_360_range (m : positive) (e : Z) :
  bounded 24 128 m e = true ->
  SFltb (f_of_Z 180) (S754_finite false m e) = true ->
  SFleb (S754_finite false m e) (f_of_Z 540) = true ->
  let r := fsub (S754_finite false m e) (f_of_Z 360) in
  SFleb (f_of_Z (-180)) r = true /\ SFleb r (f_of_Z 180) = true.
Proof.
  intros Hb Hlo Hhi.
  change (f_of_Z 180) with (S754_finite false 11796480 (-16)) in *.
  change (f_of_Z 540) with (S754_finite false 8847360 (-14)) in *.
  change (f_of_Z 360) with (S754_finite false 11796480 (-15)).
  change (f_of_Z (-180)) with (S754_finite true 11796480 (-16)).
  apply flt_pos_inv in Hlo. apply fle_pos_inv in Hhi.
  destruct (between_180_540 m e Hb Hlo Hhi) as [[-> Hm]|[[-> Hm]|[-> Hm]]].
  - change (fsub (S754_finite false m (-16)) (S754_finite false 11796480 (-15)))
      with (binary_normalize 24 128 (Zpos m - 23592960) (-16) false).
    apply normalize_small. lia.
  - change (fsub (S754_finite false m (-15)) (S754_finite false 11796480 (-15)))
      with (binary_normalize 24 128 (Zpos m - 11796480) (-15) false).
    apply normalize_small. lia.
  - change (fsub (S754_finite false m (-14)) (S754_finite false 11796480 (-15)))
      with (binary_normalize 24 128 (Zpos m~0 - 11796480) (-15) false).
    apply normalize_small. lia.
Qed.

Lemma fadd_360_range (m : positive) (e : Z) :
  bounded 24 128 m e = true ->
  SFltb (S754_finite true m e) (f_of_Z (-180)) = true ->
  SFleb (f_of_Z (-540)) (S754_finite true m e) = true ->
  let r := fadd (S754_finite true m e) (f_of_Z 360) in
  SFleb (f_of_Z (-180)) r = true /\ SFleb r (f_of_Z 180) = true.
Proof.
  intros Hb Hlo Hhi.
  change (f_of_Z 180) with (S754_finite false 11796480 (-16)).
  change (f_of_Z (-540)) with (S754_finite true 8847360 (-14)) in *.
  change (f_of_Z 360) with (S754_finite false 11796480 (-15)).
  change (f_of_Z (-180)) with (S754_finite true 11796480 (-16)) in *.
  apply flt_neg_inv in Hlo. apply fle_neg_inv in Hhi.
  destruct (between_180_540 m e Hb) as [[-> Hm]|[[-> Hm]|[-> Hm]]];
    [lia | lia | | | ].
  - change (fadd (S754_finite true m (-16)) (S754_finite false 11796480 (-15)))
      with (binary_normalize 24 128 (Zneg m + 23592960) (-16) false).
    apply normalize_small. lia.
  - change (fadd (S754_finite true m (-15)) (S754_finite false 11796480 (-15)))
      with (binary_normalize 24 128 (Zneg m + 11796480) (-15) false).
    apply normalize_small. lia.
  - change (fadd (S754_finite true m (-14)) (S754_finite false 11796480 (-15)))
      with (binary_normalize 24 128 (Zneg m~0 + 11796480) (-15) false).
    apply normalize_small. lia.
Qed.

Lemma wrap_dP_range (d : spec_float) :
  valid_binary 24 128 d = true ->
  fle (f_of_Z (-540)) d = true -> fle d (f_of_Z 540) = true ->
  fle (f_of_Z (-180)) (wrap_dP d) = true /\
  fle (wrap_dP d) (f_of_Z 180) = true.
Proof.
  unfold fle, wrap_dP, fgt, flt. intros Hv Hlo Hhi.
  destruct d as [s|s| |s m e].
  - destruct s; split; reflexivity.
  - destruct s; discriminate.
  - discriminate.
  - cbn [valid_binary] in Hv. destruct s.
    + replace (SFltb (f_of_Z 180) (S754_finite true m e)) with false
        by reflexivity.
      destruct (SFltb (S754_finite true m e) (f_of_Z (-180))) eqn:HB.
      * apply (fadd_360_range m e Hv HB Hlo).
      * split; [ | reflexivity].
        apply fge_of_not_flt; [exact HB | discriminate].
    + destruct (SFltb (f_of_Z 180) (S754_finite false m e)) eqn:HA.
      * destruct (fsub_360_range m e Hv HA Hhi) as [H1 H2].
        rewrite (flt_false_of_fle _ _ H1). split; assumption.
      * replace (SFltb (S754_finite false m e) (f_of_Z (-180))) with false
          by reflexivity.
        split; [reflexivity | ].
        apply fle_of_not_flt; [exact HA | discriminate].
Qed.

End IeeeProps.


(* ===================================================================== *)
(** * Properties of the spot-filling stage                                *)
(* ===================================================================== *)

Module SpotProps.
Import Ieee Spot Examples.

Lemma grid_get_set (g : GRID) (iP iT : nat) (x : spec_float) (iP' iT' : nat) :
  is_Some (grid_get g iP iT) ->
  grid_get (grid_set g iP iT x) iP' iT'
    = if ((iP' =? iP)%nat && (iT' =? iT)%nat)%bool then Some x
      else grid_get g iP' iT'.
Proof.
  unfold grid_get, grid_set. intros [y Hy].
  destruct (g !! iP) as [row|] eqn:Hrow; [ | discriminate Hy].
  cbn in Hy.
  destruct (Nat.eqb_spec iP' iP) as [->|HP]; cbn [andb].
  - rewrite list_lookup_alter_eq, Hrow. cbn.
    destruct (Nat.eqb_spec iT' iT) as [->|HT].
    + apply list_lookup_insert_eq. apply (lookup_lt_Some _ _ _ Hy).
    + apply list_lookup_insert_ne. congruence.
  - rewrite list_lookup_alter_ne by congruence. reflexivity.
Qed.

(** No value is strictly below itself. *)
Lemma flt_irrefl (x : spec_float) : flt x x = false.
Proof.
  unfold flt, SFltb, SFcompare.
  destruct x as [s|s| |s m e]; try destruct s; try reflexivity;
    rewrite Z.compare_refl, Pos.compare_cont_refl; reflexivity.
Qed.

(** Infinities and NaNs propagate through the operations of lines 91-93. *)
Lemma fdiv_by_zero (x z : spec_float) :
  is_zero z = true -> is_finite (fdiv x z) = false.
Proof.
  destruct z; try discriminate. intros _.
  destruct x as [sx|sx| |sx mx ex]; reflexivity.
Qed.

Lemma fmul_nonfinite_l (x y : spec_float) :
  is_finite x = false -> is_finite (fmul x y) = false.
Proof.
  destruct x as [sx|sx| |sx mx ex]; try discriminate; intros _;
    destruct y as [sy|sy| |sy my ey]; reflexivity.
Qed.

Lemma fdiv_nonfinite_l (x y : spec_float) :
  is_finite x = false -> is_finite (fdiv x y) = false.
Proof.
  destruct x as [sx|sx| |sx mx ex]; try discriminate; intros _;
    destruct y as [sy|sy| |sy my ey]; reflexivity.
Qed.

Lemma fadd_nonfinite_r (x y : spec_float) :
  is_finite y = false -> is_finite (fadd x y) = false.
Proof.
  destruct y as [sy|sy| |sy my ey]; try discriminate; intros _;
    destruct x as [sx|sx| |sx mx ex]; try reflexivity;
    destruct sx, sy; reflexivity.
Qed.

(** C3 (amended).  The east-west difference [vP[iP]-pCenter] goes through
    two successive strict tests: 360 is subtracted when it is above 180, and
    360 is added when the result is below -180.  Whenever the raw difference
    is a binary32 value between -540 and 540 (as it is for any two
    longitudes between 0 and 360), the result lies in the closed interval
    from -180 to 180; a difference of exactly -180 is left at -180.  For a
    spot centre at 350 and a grid longitude of 10 the result is 20. *)
Theorem dLon_wrap (vp pc : spec_float) :
  let d := fsub vp pc in
  dLon vp pc
    = (let d1 := if fgt d (f_of_Z 180) then fsub d (f_of_Z 360) else d in
       if flt d1 (f_of_Z (-180)) then fadd d1 (f_of_Z 360) else d1) /\
  (valid_binary 24 128 d = true ->
   fle (f_of_Z (-540)) d = true -> fle d (f_of_Z 540) = true ->
   fle (f_of_Z (-180)) (dLon vp pc) = true /\
   fle (dLon vp pc) (f_of_Z 180) = true) /\
  (d = f_of_Z (-180) -> dLon vp pc = f_of_Z (-180)) /\
  dLon (f_of_Z 10) (f_of_Z 350) = f_of_Z 20.
Proof.
  intros d. split; [reflexivity | ]. split; [ | split].
  - intros Hv Hlo Hhi. apply (IeeeProps.wrap_dP_range d Hv Hlo Hhi).
  - intros Hd. unfold dLon. fold d. rewrite Hd. reflexivity.
  - reflexivity.
Qed.

Lemma dLon_wrap_witness :
  fle (f_of_Z (-180)) (dLon (f_of_Z 10) (f_of_Z 350)) = true /\
  fle (dLon (f_of_Z 10) (f_of_Z 350)) (f_of_Z 180) = true.
Proof.
  apply (proj1 (proj2 (dLon_wrap (f_of_Z 10) (f_of_Z 350))));
    vm_compute; reflexivity.
Defined.

(** The half-open interval fails at its open end: a grid longitude of 0
    with the spot centre at 180 gives -180, which is not above -180.  A
    difference outside the range of one turn and a half is not brought
    back either. *)
Lemma dLon_half_open_counterexample :
  dLon (f_of_Z 0) (f_of_Z 180) = f_of_Z (-180) /\
  flt (f_of_Z (-180)) (dLon (f_of_Z 0) (f_of_Z 180)) = false /\
  dLon (f_of_Z 1000) (f_of_Z 0) = f_of_Z 640 /\
  fle (dLon (f_of_Z 1000) (f_of_Z 0)) (f_of_Z 180) = false.
Proof. repeat split; reflexivity. Qed.

Section Stage.
Variable sin : spec_float -> spec_float.
Variable saturation : spec_float -> spec_float.
Variable FILLING_filling : SPOTFILLING -> Args -> spec_float -> Args.

Local Abbreviation in_spot := (Spot.in_spot sin).
Local Abbreviation cell_in_spot := (Spot.cell_in_spot sin).
Local Abbreviation new_N := (Spot.new_N sin saturation).
Local Abbreviation new_Den := (Spot.new_Den sin saturation).
Local Abbreviation visited := (Spot.visited sin saturation).
Local Abbreviation spot_cell := (Spot.spot_cell sin saturation).
Local Abbreviation overlay := (Spot.overlay sin saturation).
Local Abbreviation filling := (Spot.filling sin saturation FILLING_filling).
Local Abbreviation inject := (Spot.inject sin saturation).

Lemma visited_ext (o : SPOTFILLING) (dt : spec_float) (a a' : Args)
    (done done' : nat -> nat -> bool) :
  (forall iP iT, cell_in_spot o a iP iT = true -> done iP iT = done' iP iT) ->
  visited o dt a done a' -> visited o dt a done' a'.
Proof.
  intros Hext [Hf Hc]. split; [exact Hf | ]. intros iP iT.
  specialize (Hc iP iT). specialize (Hext iP iT).
  destruct (cell_in_spot o a iP iT).
  - rewrite <- Hext by reflexivity. exact Hc.
  - rewrite andb_false_r in *. exact Hc.
Qed.

Lemma visited_start (o : SPOTFILLING) (dt : spec_float) (a : Args) :
  visited o dt a (fun _ _ => false) a.
Proof. split; [repeat split | intros iP iT; split; reflexivity]. Qed.

(** One cell: lines 79-94 extend the visited cells by the cell [iP][iT]. *)
Lemma spot_cell_visited (o : SPOTFILLING) (dt : spec_float) (a a' : Args)
    (done : nat -> nat -> bool) (iP iT : nat) :
  well_dimensioned a ->
  (iP < length (vP a))%nat -> (iT < length (vT a))%nat ->
  done iP iT = false ->
  visited o dt a done a' ->
  exists a'',
    spot_cell o dt iT iP a' = Some a'' /\
    visited o dt a
      (fun iP' iT' => done iP' iT' || ((iP' =? iP)%nat && (iT' =? iT)%nat))
      a''.
Proof.
  intros (HN & HD & HV & HB) HP HT Hnew [Hf Hc].
  destruct Hf as (HvR & HvT & HvP & HVol & HOc & HBi).
  destruct (lookup_lt_is_Some_2 _ _ HT) as [vt Hvt].
  destruct (lookup_lt_is_Some_2 _ _ HP) as [vp Hvp].
  destruct (HN iP iT HP HT) as [n Hn]. destruct (HD iP iT HP HT) as [den Hden].
  destruct (HV iP iT HP HT) as [vol Hvol].
  destruct (HB iP iT HP HT) as [bi Hbi].
  destruct (Hc iP iT) as [HcN HcD]. rewrite Hnew in HcN, HcD. cbn in HcN, HcD.
  unfold Spot.spot_cell. rewrite HvT, HvP, Hvt, Hvp. cbn.
  assert (Hin : cell_in_spot o a iP iT = in_spot o vt vp).
  { unfold Spot.cell_in_spot. rewrite Hvt, Hvp. reflexivity. }
  destruct (in_spot o vt vp) eqn:Hspot.
  - rewrite HcD, Hden, HcN, Hn, HBi, Hbi, HVol, Hvol. cbn.
    eexists; split; [reflexivity | ].
    split; [repeat split; assumption | ].
    intros iP' iT'. cbn.
    rewrite !grid_get_set by (rewrite ?HcN, ?HcD, ?Hn, ?Hden; eauto).
    destruct (Hc iP' iT') as [HcN' HcD'].
    destruct ((iP' =? iP)%nat && (iT' =? iT)%nat)%bool eqn:Heq.
    + apply andb_prop in Heq as [E1 E2].
      apply Nat.eqb_eq in E1, E2. subst iP' iT'.
      rewrite orb_true_r, Hin. cbn.
      unfold Spot.new_Den, Spot.new_N. rewrite Hden, Hn, Hbi, Hvol.
      split; reflexivity.
    + rewrite orb_false_r. split; assumption.
  - eexists; split; [reflexivity | ].
    split; [repeat split; assumption | ].
    intros iP' iT'. destruct (Hc iP' iT') as [HcN' HcD'].
    destruct ((iP' =? iP)%nat && (iT' =? iT)%nat)%bool eqn:Heq.
    + apply andb_prop in Heq as [E1 E2].
      apply Nat.eqb_eq in E1, E2. subst iP' iT'.
      rewrite Hin. rewrite andb_false_r. rewrite HcN, HcD. split; reflexivity.
    + rewrite orb_false_r. split; assumption.
Qed.


Lemma inner_loop_visited (o : SPOTFILLING) (dt : spec_float) (a a1 : Args)
    (done : nat -> nat -> bool) (iT k : nat) :
  well_dimensioned a ->
  (iT < length (vT a))%nat -> (k <= length (vP a))%nat ->
  (forall iP, done iP iT = false) ->
  visited o dt a done a1 ->
  exists a2,
    for_upto (fun iP a' => spot_cell o dt iT iP a') k a1 = Some a2 /\
    visited o dt a
      (fun iP' iT' => done iP' iT' || ((iP' <? k)%nat && (iT' =? iT)%nat))
      a2.
Proof.
  intros Hwf HT Hk Hrow Hv. induction k as [|k IH].
  - exists a1. split; [reflexivity | ].
    apply (visited_ext _ _ _ _ done); [ | exact Hv].
    intros iP' iT' _. cbv beta.
    destruct (done iP' iT'), (iT' =? iT)%nat; reflexivity.
  - destruct IH as (a2 & Hrun & Hv2); [lia | ].
    destruct (spot_cell_visited o dt a a2
                (fun iP' iT' =>
                   done iP' iT' || ((iP' <? k)%nat && (iT' =? iT)%nat))
                k iT Hwf) as (a3 & Hcell & Hv3);
      [lia | exact HT | | exact Hv2 | ].
    { rewrite Hrow, Nat.ltb_irrefl. reflexivity. }
    exists a3. split.
    + cbn [for_upto]. rewrite Hrun. exact Hcell.
    + eapply visited_ext; [ | exact Hv3].
      intros iP' iT' _. cbv beta.
      destruct (Nat.ltb_spec iP' k), (Nat.eqb_spec iP' k),
        (Nat.ltb_spec iP' (S k)), (Nat.eqb_spec iT' iT), (done iP' iT');
        try reflexivity; lia.
Qed.

Lemma outer_loop_visited (o : SPOTFILLING) (dt : spec_float) (a : Args)
    (k : nat) :
  well_dimensioned a ->
  (k <= length (vT a))%nat ->
  exists a',
    for_upto
      (fun iT a1 => for_upto (fun iP a2 => spot_cell o dt iT iP a2)
                             (length (vP a)) a1) k a = Some a' /\
    visited o dt a
      (fun iP' iT' => (iT' <? k)%nat && (iP' <? length (vP a))%nat) a'.
Proof.
  intros Hwf Hk. induction k as [|k IH].
  - exists a. split; [reflexivity | apply visited_start].
  - destruct IH as (a1 & Hrun & Hv1); [lia | ].
    destruct (inner_loop_visited o dt a a1
                (fun iP' iT' => (iT' <? k)%nat && (iP' <? length (vP a))%nat)
                k (length (vP a)) Hwf)
      as (a2 & Hin & Hv2); [lia | lia | | exact Hv1 | ].
    { intros iP. cbv beta. rewrite Nat.ltb_irrefl. reflexivity. }
    exists a2. split.
    + cbn [for_upto]. rewrite Hrun. exact Hin.
    + eapply visited_ext; [ | exact Hv2].
      intros iP' iT' _. cbv beta.
      destruct (Nat.ltb_spec iT' k), (Nat.eqb_spec iT' k),
        (Nat.ltb_spec iT' (S k)), (Nat.ltb_spec iP' (length (vP a)));
        try reflexivity; lia.
Qed.

Lemma cell_in_spot_range (o : SPOTFILLING) (a : Args) (iP iT : nat) :
  cell_in_spot o a iP iT = true ->
  (iP < length (vP a))%nat /\ (iT < length (vT a))%nat.
Proof.
  unfold Spot.cell_in_spot. intros H.
  destruct (vT a !! iT) eqn:HT; [ | discriminate H].
  destruct (vP a !! iP) eqn:HP; [ | discriminate H].
  split; eapply lookup_lt_Some; eassumption.
Qed.

(** The two loops: every cell within the radius receives the values of
    lines 91-93, computed from the arguments on entry of the loops; every
    other cell and every other argument is left as it was. *)
Lemma overlay_visited (o : SPOTFILLING) (dt : spec_float) (a : Args) :
  well_dimensioned a ->
  exists a', overlay o dt a = Some a' /\ visited o dt a (fun _ _ => true) a'.
Proof.
  intros Hwf.
  destruct (outer_loop_visited o dt a (length (vT a)) Hwf) as (a' & Hrun & Hv);
    [lia | ].
  exists a'. split; [exact Hrun | ].
  eapply visited_ext; [ | exact Hv].
  intros iP' iT' H. cbv beta.
  destruct (cell_in_spot_range _ _ _ _ H) as [HP HT].
  apply Nat.ltb_lt in HP, HT. rewrite HP, HT. reflexivity.
Qed.


Local Abbreviation sSat := (Spot.sSat sin saturation).
Local Abbreviation flux := (Spot.flux sin saturation).
Local Abbreviation radius := (Spot.radius sin).

Lemma active_spec (o : SPOTFILLING) :
  active o = true <-> tStart o <= t o <= tEnd o.
Proof. unfold active. rewrite andb_true_iff, !Z.leb_le. reflexivity. Qed.

Lemma inactive_spec (o : SPOTFILLING) :
  active o = false <-> t o < tStart o \/ tEnd o < t o.
Proof.
  unfold active. rewrite andb_false_iff, !Z.leb_gt. reflexivity.
Qed.

(** The stage while the spot is active, on well-dimensioned grids. *)
Lemma filling_active (o : SPOTFILLING) (a : Args) (dt : spec_float) :
  active o = true ->
  well_dimensioned (FILLING_filling o a dt) ->
  exists a',
    filling o a dt = Some (a', ["In spot time interval"%string]) /\
    visited o dt (FILLING_filling o a dt) (fun _ _ => true) a'.
Proof.
  intros Hact Hwf. destruct (overlay_visited o dt _ Hwf) as (a' & Hrun & Hv).
  exists a'. split; [ | exact Hv].
  unfold Spot.filling. rewrite Hact, Hrun. reflexivity.
Qed.

Lemma filling_inactive (o : SPOTFILLING) (a : Args) (dt : spec_float) :
  active o = false -> filling o a dt = Some (FILLING_filling o a dt, []).
Proof. intros Hact. unfold Spot.filling. rewrite Hact. reflexivity. Qed.

(** C2.  The spot window is closed at both ends.  The overlay runs exactly
    when [tStart <= t <= tEnd]; strictly before the start or strictly after
    the end the stage returns what the baseline returned and prints
    nothing; inside the window (the grids covering the coordinate vectors)
    every cell within the radius receives the injected N and the recomputed
    Den.  For a window that is not empty, the instants [tStart] and [tEnd]
    are inside it and [tStart - 1] and [tEnd + 1] are not. *)
Theorem spot_window_closed (o : SPOTFILLING) (a : Args) (dt : spec_float) :
  let b := FILLING_filling o a dt in
  (active o = true <-> tStart o <= t o <= tEnd o) /\
  (t o < tStart o \/ tEnd o < t o -> filling o a dt = Some (b, [])) /\
  (tStart o <= t o <= tEnd o -> well_dimensioned b ->
   exists a',
     filling o a dt = Some (a', ["In spot time interval"%string]) /\
     forall iP iT,
       cell_in_spot o b iP iT = true ->
       grid_get (mGridN a') iP iT = new_N o dt b iP iT /\
       grid_get (mGridDen a') iP iT = new_Den o dt b iP iT) /\
  (tStart o <= tEnd o ->
   active (setTime o (tStart o)) = true /\
   active (setTime o (tEnd o)) = true /\
   active (setTime o (tStart o - 1)) = false /\
   active (setTime o (tEnd o + 1)) = false).
Proof.
  intros b. split; [apply active_spec | ]. split; [ | split].
  - intros H. apply filling_inactive, inactive_spec, H.
  - intros H Hwf. apply active_spec in H.
    destruct (filling_active o a dt H Hwf) as (a' & Hrun & _ & Hc).
    exists a'. split; [exact Hrun | ].
    intros iP iT Hin. specialize (Hc iP iT). fold b in Hc.
    rewrite Hin in Hc. exact Hc.
  - intros H. rewrite !active_spec.
    split; [ | split]; [cbn; lia | cbn; lia | ].
    split; apply inactive_spec; cbn; lia.
Qed.

(** C4.  While the spot is active, [spotSaturation] is [f] times the
    saturation of [1/sin(x)/sin(x)], [x] the centre colatitude in radians,
    and [spotPeakRate] is [f*fMax].  Every cell whose distance [r] satisfies
    [r < R] strictly receives [N + flux*dt/Bi] with
    [flux = (spotSaturation - Den)/spotSaturation*spotPeakRate], Den being
    what the baseline left, and its Den becomes the new N divided by Vol.  A
    cell with [r < R] false, in particular with [r = R], keeps the N and Den
    the baseline left. *)
Theorem spot_injection_formula (o : SPOTFILLING) (a : Args)
    (dt : spec_float) :
  let b := FILLING_filling o a dt in
  let s := sin (dmul (to_double (fdiv (tCenter o) (f_of_Z 180))) M_PI) in
  let spotSaturation :=
    fmul (f o) (saturation (ddiv (ddiv (d_of_Z 1) s) s)) in
  let spotPeakRate := fmul (f o) (fMax o) in
  active o = true -> well_dimensioned b ->
  exists a',
    filling o a dt = Some (a', ["In spot time interval"%string]) /\
    forall iP iT vt vp n den vol bi,
      vT b !! iT = Some vt -> vP b !! iP = Some vp ->
      grid_get (mGridN b) iP iT = Some n ->
      grid_get (mGridDen b) iP iT = Some den ->
      grid_get (mGridVol b) iP iT = Some vol ->
      grid_get (mGridBi b) iP iT = Some bi ->
      let r := radius o vt vp in
      let flux :=
        fmul (fdiv (fsub spotSaturation den) spotSaturation) spotPeakRate in
      let n' := fadd n (fdiv (fmul flux dt) bi) in
      (flt r (R o) = true ->
       grid_get (mGridN a') iP iT = Some n' /\
       grid_get (mGridDen a') iP iT = Some (fdiv n' vol)) /\
      (flt r (R o) = false ->
       grid_get (mGridN a') iP iT = Some n /\
       grid_get (mGridDen a') iP iT = Some den) /\
      (r = R o ->
       grid_get (mGridN a') iP iT = Some n /\
       grid_get (mGridDen a') iP iT = Some den).
Proof.
  intros b s spotSaturation spotPeakRate Hact Hwf.
  destruct (filling_active o a dt Hact Hwf) as (a' & Hrun & _ & Hc).
  exists a'. split; [exact Hrun | ].
  intros iP iT vt vp n den vol bi Hvt Hvp Hn Hden Hvol Hbi r flux0 n'.
  specialize (Hc iP iT). fold b in Hc. cbn [andb] in Hc.
  unfold Spot.cell_in_spot, Spot.new_Den, Spot.new_N in Hc.
  rewrite Hvt, Hvp, Hn, Hden, Hvol, Hbi in Hc. cbn in Hc.
  assert (Hout : flt r (R o) = false ->
                 grid_get (mGridN a') iP iT = Some n /\
                 grid_get (mGridDen a') iP iT = Some den).
  { intros Hr. unfold Spot.in_spot in Hc. fold r in Hc.
    rewrite Hr in Hc. exact Hc. }
  split; [ | split; [exact Hout | ]].
  - intros Hr. unfold Spot.in_spot in Hc. fold r in Hc.
    rewrite Hr in Hc. exact Hc.
  - intros Hr. apply Hout. rewrite Hr. apply flt_irrefl.
Qed.

(** C5.  After the stage, every cell either has the N and Den that the
    baseline left (the stage did not write it), or has Den equal to its N
    divided by its Vol: the only write of N, line 92, is followed by the
    recomputation of Den, line 93, for the same cell. *)
Theorem density_consistent (o : SPOTFILLING) (a : Args) (dt : spec_float) :
  let b := FILLING_filling o a dt in
  well_dimensioned b ->
  exists a' out,
    filling o a dt = Some (a', out) /\
    forall iP iT,
      (grid_get (mGridN a') iP iT = grid_get (mGridN b) iP iT /\
       grid_get (mGridDen a') iP iT = grid_get (mGridDen b) iP iT) \/
      (exists n' vol,
         grid_get (mGridN a') iP iT = Some n' /\
         grid_get (mGridVol a') iP iT = Some vol /\
         grid_get (mGridDen a') iP iT = Some (fdiv n' vol)).
Proof.
  intros b Hwf. destruct (active o) eqn:Hact.
  - destruct (filling_active o a dt Hact Hwf) as (a' & Hrun & Hf & Hc).
    exists a', ["In spot time interval"%string]. split; [exact Hrun | ].
    intros iP iT. specialize (Hc iP iT). fold b in Hc. cbn [andb] in Hc.
    destruct (cell_in_spot o b iP iT) eqn:Hin; [right | left; exact Hc].
    destruct (cell_in_spot_range _ _ _ _ Hin) as [HP HT].
    destruct Hwf as (HN & HD & HV & HB).
    destruct (HN iP iT HP HT) as [n Hn]. destruct (HD iP iT HP HT) as [d Hd].
    destruct (HV iP iT HP HT) as [vol Hvol].
    destruct (HB iP iT HP HT) as [bi Hbi].
    destruct Hf as (_ & _ & _ & HVol & _). rewrite HVol.
    unfold Spot.new_Den, Spot.new_N in Hc.
    rewrite Hn, Hd, Hvol, Hbi in Hc. cbn in Hc.
    eexists _, vol. split; [apply Hc | ]. split; [exact Hvol | apply Hc].
  - exists b, []. split; [apply filling_inactive, Hact | ].
    intros iP iT. left. split; reflexivity.
Qed.

(** C6.  With the current time strictly outside the window, the stage
    returns exactly the arguments that the baseline returned (coordinate
    vectors, N, Den, Vol, Oc and Bi) and prints nothing. *)
Theorem noop_outside_window (o : SPOTFILLING) (a : Args) (dt : spec_float) :
  t o < tStart o \/ tEnd o < t o ->
  filling o a dt = Some (FILLING_filling o a dt, []).
Proof. intros H. apply filling_inactive, inactive_spec, H. Qed.

(** C7 (amended).  The stage does not validate the saturation value: while
    the spot is active and the grids cover the coordinate vectors it returns
    normally, and every cell within the radius receives the values computed
    by dividing by [sSat].  When [sSat] is a zero, those values of N and Den
    are not finite. *)
Theorem saturation_not_validated (o : SPOTFILLING) (a : Args)
    (dt : spec_float) :
  let b := FILLING_filling o a dt in
  active o = true -> well_dimensioned b ->
  exists a',
    filling o a dt = Some (a', ["In spot time interval"%string]) /\
    forall iP iT,
      cell_in_spot o b iP iT = true ->
      exists n den vol bi,
        grid_get (mGridN b) iP iT = Some n /\
        grid_get (mGridDen b) iP iT = Some den /\
        grid_get (mGridVol b) iP iT = Some vol /\
        grid_get (mGridBi b) iP iT = Some bi /\
        let n' := fadd n (fdiv (fmul (fmul (fdiv (fsub (sSat o) den) (sSat o))
                                           (sFMax o)) dt) bi) in
        grid_get (mGridN a') iP iT = Some n' /\
        grid_get (mGridDen a') iP iT = Some (fdiv n' vol) /\
        (is_zero (sSat o) = true ->
         is_finite n' = false /\ is_finite (fdiv n' vol) = false).
Proof.
  intros b Hact Hwf.
  destruct (filling_active o a dt Hact Hwf) as (a' & Hrun & _ & Hc).
  exists a'. split; [exact Hrun | ].
  intros iP iT Hin. specialize (Hc iP iT). fold b in Hc.
  rewrite Hin in Hc. cbn [andb] in Hc.
  destruct (cell_in_spot_range _ _ _ _ Hin) as [HP HT].
  destruct Hwf as (HN & HD & HV & HB).
  destruct (HN iP iT HP HT) as [n Hn]. destruct (HD iP iT HP HT) as [d Hd].
  destruct (HV iP iT HP HT) as [vol Hvol].
  destruct (HB iP iT HP HT) as [bi Hbi].
  unfold Spot.new_Den, Spot.new_N in Hc.
  rewrite Hn, Hd, Hvol, Hbi in Hc. cbn in Hc.
  exists n, d, vol, bi. repeat (split; [assumption | ]).
  cbv zeta. split; [apply Hc | ]. split; [apply Hc | ].
  intros Hz.
  assert (Hn' : is_finite
                  (fadd n (fdiv (fmul (fmul (fdiv (fsub (sSat o) d) (sSat o))
                                            (sFMax o)) dt) bi)) = false).
  { apply fadd_nonfinite_r, fdiv_nonfinite_l, fmul_nonfinite_l,
      fmul_nonfinite_l, fdiv_by_zero, Hz. }
  split; [exact Hn' | apply fdiv_nonfinite_l, Hn'].
Qed.

End Stage.

(** The grids of [two_cells] have a cell for each of its two local times at
    its one colatitude. *)
Lemma two_cells_well_dimensioned : well_dimensioned two_cells.
Proof.
  repeat split; intros iP iT HP HT; cbn in HP, HT;
    destruct iP as [|[|iP]]; destruct iT as [|iT]; try lia;
    eexists; reflexivity.
Qed.

Lemma spot_window_closed_witness :
  exists a',
    Spot.filling sin_series saturation_500 baseline_id (spot_at 0) two_cells
      (f_of_Z 300) = Some (a', ["In spot time interval"%string]) /\
    grid_get (mGridN a') 0 0 = Some (S754_finite false 14019012 23).
Proof.
  destruct (spot_window_closed sin_series saturation_500 baseline_id
              (spot_at 0) two_cells (f_of_Z 300)) as (_ & _ & H & _).
  destruct H as (a' & Hrun & Hc);
    [cbn; lia | apply two_cells_well_dimensioned | ].
  exists a'. split; [exact Hrun | ].
  destruct (Hc 0%nat 0%nat) as [HN _]; [vm_compute; reflexivity | ].
  rewrite HN. vm_compute. reflexivity.
Defined.

Lemma spot_injection_formula_witness :
  exists a',
    Spot.filling sin_series saturation_500 baseline_id (spot_at 50) two_cells
      (f_of_Z 300) = Some (a', ["In spot time interval"%string]) /\
    grid_get (mGridN a') 0 0 = Some (S754_finite false 14019012 23) /\
    grid_get (mGridN a') 1 0 = Some (f_of_Z 1000).
Proof.
  destruct (spot_injection_formula sin_series saturation_500 baseline_id
              (spot_at 50) two_cells (f_of_Z 300))
    as (a' & Hrun & Hc);
    [reflexivity | apply two_cells_well_dimensioned | ].
  exists a'. split; [exact Hrun | ]. split.
  - destruct (Hc 0%nat 0%nat (f_of_Z 30) (f_of_Z 315) (f_of_Z 1000)
                (f_of_Z 100) (f_of_Z 10) (f_of_Z 50)
                eq_refl eq_refl eq_refl eq_refl eq_refl eq_refl)
      as (Hin & _ & _).
    destruct Hin as [HN _]; [vm_compute; reflexivity | ].
    rewrite HN. vm_compute. reflexivity.
  - destruct (Hc 1%nat 0%nat (f_of_Z 30) (f_of_Z 135) (f_of_Z 1000)
                (f_of_Z 100) (f_of_Z 10) (f_of_Z 50)
                eq_refl eq_refl eq_refl eq_refl eq_refl eq_refl)
      as (_ & Hout & _).
    destruct Hout as [HN _]; [vm_compute; reflexivity | exact HN].
Defined.

Lemma density_consistent_witness :
  exists a' out,
    Spot.filling sin_series saturation_500 baseline_id (spot_at 50) two_cells
      (f_of_Z 300) = Some (a', out) /\
    ((grid_get (mGridN a') 0 0 = Some (f_of_Z 1000) /\
      grid_get (mGridDen a') 0 0 = Some (f_of_Z 100)) \/
     (exists n' vol,
        grid_get (mGridN a') 0 0 = Some n' /\
        grid_get (mGridVol a') 0 0 = Some vol /\
        grid_get (mGridDen a') 0 0 = Some (fdiv n' vol))).
Proof.
  destruct (density_consistent sin_series saturation_500 baseline_id
              (spot_at 50) two_cells (f_of_Z 300)
              two_cells_well_dimensioned) as (a' & out & Hrun & Hc).
  exists a', out. split; [exact Hrun | exact (Hc 0%nat 0%nat)].
Defined.

Lemma noop_outside_window_witness :
  Spot.filling sin_series saturation_500 baseline_id (spot_at 101) two_cells
    (f_of_Z 300) = Some (two_cells, []).
Proof.
  apply (noop_outside_window sin_series saturation_500 baseline_id
           (spot_at 101) two_cells (f_of_Z 300)).
  right. cbn. lia.
Defined.

(** With a saturation of zero the stage does not fail: it returns, and the
    cell at the centre of the spot holds minus infinity in N and in Den. *)
Lemma saturation_zero_counterexample :
  active (spot_at 50) = true /\
  Spot.dSat sin_series saturation_0 (spot_at 50) = S754_zero false /\
  exists a',
    Spot.filling sin_series saturation_0 baseline_id (spot_at 50) two_cells
      (f_of_Z 300) = Some (a', ["In spot time interval"%string]) /\
    grid_get (mGridN a') 0 0 = Some (S754_infinity true) /\
    grid_get (mGridDen a') 0 0 = Some (S754_infinity true).
Proof.
  split; [reflexivity | ]. split; [reflexivity | ].
  eexists. split; [vm_compute; reflexivity | ].
  split; reflexivity.
Qed.

Lemma saturation_not_validated_witness :
  exists a',
    Spot.filling sin_series saturation_0 baseline_id (spot_at 50) two_cells
      (f_of_Z 300) = Some (a', ["In spot time interval"%string]) /\
    exists n', grid_get (mGridN a') 0 0 = Some n' /\ is_finite n' = false.
Proof.
  destruct (saturation_not_validated sin_series saturation_0 baseline_id
              (spot_at 50) two_cells (f_of_Z 300))
    as (a' & Hrun & Hc);
    [reflexivity | apply two_cells_well_dimensioned | ].
  exists a'. split; [exact Hrun | ].
  destruct (Hc 0%nat 0%nat) as (n & den & vol & bi & _ & _ & _ & _ & H);
    [vm_compute; reflexivity | ].
  cbv zeta in H. destruct H as (HN & _ & Hz).
  eexists. split; [exact HN | ].
  apply Hz. reflexivity.
Defined.

End SpotProps.


(* ===================================================================== *)
(** * Properties of the time-stepping driver                              *)
(* ===================================================================== *)

Module SchedProps.
Import Sched Examples.

(** The chain of tests of lines 212-218 is the minimum of the four due
    times. *)
Lemma next_time_min (s : State) :
  next_time s =
  Z.min (Z.min (Z.min (tWriteSample s) (tWriteState s)) (tKp s)) (tFilling s).
Proof.
  unfold next_time; cbv zeta.
  repeat match goal with
         | |- context [?a <? ?b] =>
             lazymatch b with
             | context [if _ then _ else _] => fail
             | _ => destruct (Z.ltb_spec a b)
             end
         end; lia.
Qed.

(** Case analysis on one iteration: every test of the body is decided. *)
Ltac split_step H :=
  match type of H with
  | context [match f ?s with _ => _ end] => destruct (f s) eqn:?
  | context [match samples ?s with _ => _ end] => destruct (samples s) eqn:?
  | context [match kp_at ?e ?i with _ => _ end] => destruct (kp_at e i) eqn:?
  | context [if ?c then _ else _] => destruct c eqn:?
  end; cbn in H.

Ltac run_body H :=
  unfold body, and_then, call_setTime, bump_tFilling, advance_model,
    print_time, update_kp, write_state, write_sample, set_tNext, set_kp in H;
  cbn in H; repeat split_step H; try discriminate H.

Ltac bool_to_Z :=
  repeat match goal with
         | H : (_ <=? _) = true |- _ => apply Z.leb_le in H
         | H : (_ <=? _) = false |- _ => apply Z.leb_gt in H
         | H : (_ <? _) = true |- _ => apply Z.ltb_lt in H
         | H : (_ <? _) = false |- _ => apply Z.ltb_ge in H
         | H : (_ =? _) = true |- _ => apply Z.eqb_eq in H
         end.

(** What an iteration that completes does to the clock, to the spot-refresh
    due time and to the next wake time. *)
Lemma body_clock (e : Env) (s s' : State) (ev : list event) :
  body e s = (ev, Ok s') ->
  tNext s' = next_time s' /\
  tFilling s' = tFilling s + 300 /\
  (t s < tNext s -> advances ev = [tNext s - t s] /\ t s' = tNext s) /\
  (tNext s <= t s -> advances ev = [] /\ t s' = t s).
Proof.
  intros H. run_body H.
  all: injection H as <- <-; cbn; bool_to_Z.
  all: repeat split; try reflexivity; intros; try lia.
Qed.

(** C1.  Every iteration ends by setting the next wake time to the minimum
    of the four due times (sample-write, state-write, forcing, spot-refresh).
    An iteration that starts with the next wake time strictly after the
    clock advances the model once, by exactly the difference, and sets the
    clock to the next wake time; otherwise it does not advance the model and
    leaves the clock.  Hence, from the second iteration on, the clock moves
    to exactly the minimum of the due times computed by the previous
    iteration, never past it. *)
Theorem scheduler_advances_to_minimum (e : Env) (s s1 s2 : State)
    (ev1 ev2 : list event) :
  body e s = (ev1, Ok s1) ->
  body e s1 = (ev2, Ok s2) ->
  let due := Z.min (Z.min (Z.min (tWriteSample s1) (tWriteState s1)) (tKp s1))
                   (tFilling s1) in
  tNext s1 = due /\
  (t s < tNext s -> advances ev1 = [tNext s - t s] /\ t s1 = tNext s) /\
  (tNext s <= t s -> advances ev1 = [] /\ t s1 = t s) /\
  (t s1 < due ->
     advances ev2 = [due - t s1] /\ t s2 = due /\
     t s2 <= tWriteSample s1 /\ t s2 <= tWriteState s1 /\
     t s2 <= tKp s1 /\ t s2 <= tFilling s1) /\
  (due <= t s1 -> advances ev2 = [] /\ t s2 = t s1).
Proof.
  intros H1 H2 due.
  destruct (body_clock _ _ _ _ H1) as (Hn & _ & Hadv & Hstay).
  destruct (body_clock _ _ _ _ H2) as (_ & _ & Hadv2 & Hstay2).
  rewrite next_time_min in Hn. fold due in Hn.
  rewrite Hn in Hadv2, Hstay2.
  split; [exact Hn | ]. split; [exact Hadv | ]. split; [exact Hstay | ].
  split; [ | exact Hstay2].
  intros Hlt. destruct (Hadv2 Hlt) as [Ha Ht].
  split; [exact Ha | ]. rewrite Ht. subst due. lia.
Qed.

Lemma scheduler_advances_to_minimum_witness :
  body env_dt100 s0_dt100
    = ([SetTime 10800; PrintTime 10800; SetEPot 10800 10800 (Ieee.f_of_Z 2);
        WriteState 10800 10800], Ok s1_dt100) /\
  body env_dt100 s1_dt100
    = ([SetTime 10800; Advance 100; PrintTime 10900; WriteState 10900 10900],
       Ok s2_dt100) /\
  tNext s1_dt100 = 10900 /\ t s2_dt100 = 10900.
Proof.
  split; [reflexivity | split; [reflexivity | ]].
  pose proof (scheduler_advances_to_minimum env_dt100 s0_dt100 s1_dt100
                s2_dt100 _ _ eq_refl eq_refl) as H.
  cbv zeta in H. destruct H as (Hn & _ & _ & Hadv & _).
  split; [exact Hn | ].
  destruct Hadv as (_ & Ht & _); [reflexivity | exact Ht].
Defined.

(** C8.  The spot-refresh due time is moved on an iteration where the
    stream is not due.  In the run [run_dt100] the second iteration runs
    with the clock at 10900 while the spot-refresh stream is due at 11100;
    the iteration nevertheless moves that due time to 11400.  Line 178 adds
    the period on every iteration, without the guard that the other three
    streams have. *)
Theorem spot_refresh_moved_when_not_due :
  fst (main find_first 1 run_dt100)
    = [SetTime 10800; PrintTime 10800; SetEPot 10800 10800 (Ieee.f_of_Z 2);
       WriteState 10800 10800] /\
  snd (main find_first 1 run_dt100) = Running s1_dt100 /\
  tFilling s1_dt100 = 11100 /\
  body env_dt100 s1_dt100
    = ([SetTime 10800; Advance 100; PrintTime 10900; WriteState 10900 10900],
       Ok s2_dt100) /\
  t s2_dt100 = 10900 /\ tFilling s2_dt100 = 11400.
Proof. repeat split; reflexivity. Qed.

(** The other three streams: an iteration that completes recomputes the due
    time of a stream exactly when that due time is not after the clock, the
    forcing stream from the next record (or one second after the end of the
    run once the records are exhausted), the state-write and sample-write
    streams by adding their period. *)
Lemma guarded_streams_recomputed (e : Env) (s s' : State)
    (ev : list event) :
  body e s = (ev, Ok s') ->
  tKp s' =
    (if tKp s <=? t s' then
       if Z.of_nat (length (kp e)) <=? iKp s + 1 then tStop e + 1
       else match kp_at e (iKp s + 1) with
            | Some r => getTime r
            | None => tKp s
            end
     else tKp s) /\
  tWriteState s' =
    (if tWriteState s <=? t s' then tWriteState s + dt e
     else tWriteState s) /\
  tWriteSample s' =
    (if tWriteSample s <=? t s' then
       match samples s with
       | Some c => sTime c + sPeriod c
       | None => tWriteSample s
       end
     else tWriteSample s).
Proof.
  intros H. run_body H.
  all: injection H as <- <-; cbn.
  all: repeat match goal with
              | Hc : ?c = _ |- context [?c] => rewrite Hc
              end.
  all: repeat split; reflexivity.
Qed.

(** The four-stream example of the design document: the clock moves from 0
    to exactly 120, and only the sample stream is serviced. *)
Example scheduler_minimality :
  body env_four_streams s_four_streams
    = ([SetTime 0; Advance 120; PrintTime 120; WriteSamples 120 120],
       Ok s_four_streams_next).
Proof. reflexivity. Qed.

(** The spot-refresh due time grows by 300 in every iteration that
    completes, whatever the clock is. *)
Lemma spot_refresh_every_iteration (e : Env) (s s' : State)
    (ev : list event) :
  body e s = (ev, Ok s') -> tFilling s' = tFilling s + 300.
Proof. intros H. apply (body_clock _ _ _ _ H). Qed.


Lemma nondecreasing_lookup {A : Type} (g : A -> Z) (l : list A) (i : nat)
    (a b : A) :
  nondecreasing (map g l) = true ->
  l !! i = Some a -> l !! S i = Some b -> g a <= g b.
Proof.
  revert i. induction l as [|x l IH]; intros i Hs Ha Hb; [discriminate | ].
  destruct l as [|y l]; [discriminate | ].
  cbn [map nondecreasing] in Hs. apply andb_prop in Hs as [Hxy Hs].
  destruct i as [|i].
  - cbn in Ha, Hb. injection Ha as <-. injection Hb as <-.
    apply Z.leb_le, Hxy.
  - apply (IH i Hs Ha Hb).
Qed.

Lemma kp_sorted_step (e : Env) (i : Z) (r r' : KP) :
  nondecreasing (map getTime (kp e)) = true ->
  kp_at e i = Some r -> kp_at e (i + 1) = Some r' -> getTime r <= getTime r'.
Proof.
  unfold kp_at. intros Hs Hr Hr'.
  destruct (Z.ltb_spec i 0); [discriminate | ].
  destruct (Z.ltb_spec (i + 1) 0); [discriminate | ].
  replace (Z.to_nat (i + 1)) with (S (Z.to_nat i)) in Hr' by lia.
  apply (nondecreasing_lookup getTime _ _ _ _ Hs Hr Hr').
Qed.

Lemma kp_at_beyond (e : Env) (i : Z) :
  Z.of_nat (length (kp e)) <= i -> kp_at e i = None.
Proof.
  intros H. unfold kp_at. destruct (Z.ltb_spec i 0); [reflexivity | ].
  apply lookup_ge_None_2. lia.
Qed.

Lemma on_time_spec (e : Env) (s : State) :
  on_time e s = true <->
  (t s <= tNext s /\ tNext s <= tFilling s /\ tNext s <= tKp s /\
   tNext s <= tWriteState s /\ tNext s <= tWriteSample s /\ 0 <= dt e /\
   (nondecreasing (map getTime (kp e)) = true) /\
   (forall r, kp_at e (iKp s) = Some r -> getTime r = tKp s) /\
   (forall c, samples s = Some c ->
              sTime c = tWriteSample s /\ 0 <= sPeriod c)).
Proof.
  unfold on_time. rewrite !andb_true_iff, !Z.leb_le.
  split.
  - intros ((((((((H1 & H2) & H3) & H4) & H5) & H6) & H7) & H8) & H9).
    repeat (split; [assumption | ]). split.
    + intros r Hr. rewrite Hr in H8. apply Z.eqb_eq, H8.
    + intros c Hc. rewrite Hc in H9. apply andb_prop in H9 as [Ha Hb].
      split; [apply Z.eqb_eq, Ha | apply Z.leb_le, Hb].
  - intros (H1 & H2 & H3 & H4 & H5 & H6 & H7 & H8 & H9).
    repeat split; try assumption.
    + destruct (kp_at e (iKp s)) as [r|]; [ | reflexivity].
      apply Z.eqb_eq, H8; reflexivity.
    + destruct (samples s) as [c|]; [ | reflexivity].
      destruct (H9 c eq_refl) as [Ha Hb].
      apply andb_true_intro; split; [apply Z.eqb_eq, Ha | apply Z.leb_le, Hb].
Qed.

Lemma body_on_time (e : Env) (s s' : State) (ev : list event) :
  on_time e s = true -> tNext s <= tStop e ->
  body e s = (ev, Ok s') ->
  on_time e s' = true /\ Forall punctual ev.
Proof.
  intros Hon Hgo H. apply on_time_spec in Hon.
  destruct Hon as (H1 & H2 & H3 & H4 & H5 & H6 & H7 & H8 & H9).
  run_body H.
  all: injection H as <- <-; bool_to_Z.
  all: split.
  all: try (repeat constructor; intros now due Hs; cbn in Hs;
            try discriminate Hs; injection Hs as <- <-; lia).
  all: apply on_time_spec; rewrite next_time_min; cbn.
  all: try match goal with
           | Hx : forall r : KP, Some ?k = Some r -> _ |- _ =>
               pose proof (Hx k eq_refl)
           end.
  all: try match goal with
           | Hx : forall c : SAMPLE, Some ?c0 = Some c -> _ |- _ =>
               destruct (Hx c0 eq_refl)
           end.
  all: try match goal with
           | Hs : nondecreasing _ = true,
             Ha : kp_at ?e (iKp ?s) = Some ?k,
             Hb : kp_at ?e (iKp ?s + 1) = Some ?k0 |- _ =>
               pose proof (kp_sorted_step e _ _ _ Hs Ha Hb)
           end.
  all: do 7 (split; [first [lia | assumption] | ]).
  all: split;
    [ intros r Hr;
      first [ rewrite kp_at_beyond in Hr by lia; discriminate Hr
            | match goal with
              | Hb : kp_at _ (iKp _ + 1) = Some _ |- _ =>
                  rewrite Hb in Hr; injection Hr as <-; reflexivity
              end
            | match goal with
              | Hx : forall r, kp_at _ _ = Some r -> _ |- _ =>
                  apply Hx; assumption
              end
            | congruence ]
    | intros c Hc;
      first [ injection Hc as <-; cbn; lia
            | match goal with
              | Hx : forall c, samples _ = Some c -> _ |- _ =>
                  apply Hx; assumption
              end
            | discriminate Hc
            | congruence ] ].
Qed.

Lemma body_guarded (e : Env) (s : State) (ev : list event)
    (r : result State) :
  body e s = (ev, r) -> Forall guarded ev.
Proof.
  intros H. run_body H.
  all: injection H as <- <-; bool_to_Z.
  all: repeat constructor; intros now due Hs; cbn in Hs;
    try discriminate Hs; injection Hs as <- <-; lia.
Qed.

Lemma loop_guarded (e : Env) (fuel : nat) (s : State) :
  Forall guarded (fst (loop e fuel s)).
Proof.
  revert s. induction fuel as [|k IH]; intros s; cbn [loop].
  - destruct (tNext s <=? tStop e); constructor.
  - destruct (tNext s <=? tStop e); [ | constructor].
    destruct (body e s) as [ev [s'|x]] eqn:Hb.
    + specialize (IH s'). destruct (loop e k s') as [ev' r]. cbn in *.
      apply Forall_app. split; [apply (body_guarded _ _ _ _ Hb) | exact IH].
    + apply (body_guarded _ _ _ _ Hb).
Qed.

Lemma body_fault_punctual (e : Env) (s : State) (ev : list event) (x : fault) :
  on_time e s = true -> tNext s <= tStop e ->
  body e s = (ev, Fault x) -> Forall punctual ev.
Proof.
  intros Hon Hgo H. apply on_time_spec in Hon.
  destruct Hon as (H1 & H2 & H3 & H4 & H5 & H6 & H7 & H8 & H9).
  run_body H.
  all: injection H as <- <-; bool_to_Z.
  all: repeat constructor; intros now due Hs; cbn in Hs;
    try discriminate Hs; injection Hs as <- <-; lia.
Qed.

Lemma loop_punctual (e : Env) (fuel : nat) (s : State) :
  on_time e s = true -> Forall punctual (fst (loop e fuel s)).
Proof.
  revert s. induction fuel as [|k IH]; intros s Hon; cbn [loop].
  - destruct (tNext s <=? tStop e); constructor.
  - destruct (Z.leb_spec (tNext s) (tStop e)) as [Hgo|]; [ | constructor].
    destruct (body e s) as [ev [s'|x]] eqn:Hb.
    + destruct (body_on_time _ _ _ _ Hon Hgo Hb) as [Hon' Hev].
      specialize (IH s' Hon'). destruct (loop e k s') as [ev' r]. cbn in *.
      apply Forall_app. split; assumption.
    + apply (body_fault_punctual _ _ _ _ Hon Hgo Hb).
Qed.

(** A loop entered on time is on time whenever it tests its condition. *)
Lemma loop_on_time (e : Env) (fuel : nat) (s s' : State) :
  on_time e s = true -> snd (loop e fuel s) = Running s' ->
  on_time e s' = true.
Proof.
  revert s. induction fuel as [|k IH]; intros s Hon; cbn [loop].
  - destruct (tNext s <=? tStop e); [ | discriminate].
    intros Hr. injection Hr as <-. exact Hon.
  - destruct (Z.leb_spec (tNext s) (tStop e)) as [Hgo|]; [ | discriminate].
    destruct (body e s) as [ev [s1|x]] eqn:Hb; [ | discriminate].
    destruct (body_on_time _ _ _ _ Hon Hgo Hb) as [Hon1 _].
    specialize (IH s1 Hon1). destruct (loop e k s1) as [ev' r]. exact IH.
Qed.

(** C9 (amended).  The forcing, state-write and sample-write streams are
    serviced under the guards [t>=due]: a servicing call never has its due
    time after the clock.  When the loop is entered on time ([on_time]: no
    due time before the clock, periods not negative, forcing records in
    non-decreasing time order), no stream is serviced late in any run:
    every servicing call of these three streams has its due time equal to
    the clock, and whenever an iteration starts the due time of the
    spot-refresh stream is neither before the clock nor before the time the
    clock is advanced to. *)
Theorem serviced_when_due (e : Env) (fuel : nat) (s : State) :
  (forall x now due,
     In x (fst (loop e fuel s)) -> serviced x = Some (now, due) ->
     due <= now) /\
  (on_time e s = true ->
   forall x now due,
     In x (fst (loop e fuel s)) -> serviced x = Some (now, due) ->
     due = now) /\
  (on_time e s = true ->
   forall s',
     snd (loop e fuel s) = Running s' ->
     t s' <= tFilling s' /\ tNext s' <= tFilling s').
Proof.
  split; [ | split].
  - intros x now due Hin. revert now due.
    pose proof (loop_guarded e fuel s) as H.
    rewrite Forall_forall in H. apply H. apply list_elem_of_In, Hin.
  - intros Hon x now due Hin. revert now due.
    pose proof (loop_punctual e fuel s Hon) as H.
    rewrite Forall_forall in H. apply H. apply list_elem_of_In, Hin.
  - intros Hon s' Hr.
    pose proof (loop_on_time e fuel s s' Hon Hr) as Hon'.
    apply on_time_spec in Hon'. lia.
Qed.

Lemma serviced_when_due_witness :
  on_time env_dt100 s0_dt100 = true /\
  In (WriteState 10900 10900) (fst (loop env_dt100 2 s0_dt100)) /\
  (forall x now due,
     In x (fst (loop env_dt100 2 s0_dt100)) ->
     serviced x = Some (now, due) -> due = now) /\
  t s2_dt100 <= tFilling s2_dt100 /\ tNext s2_dt100 <= tFilling s2_dt100.
Proof.
  split; [reflexivity | ]. split; [vm_compute; tauto | ].
  destruct (serviced_when_due env_dt100 2 s0_dt100) as (_ & Hp & Hf).
  split; [exact (Hp eq_refl) | exact (Hf eq_refl s2_dt100 eq_refl)].
Defined.

(** The run [run_dt100] is entered on time.  Its second iteration starts
    with the clock at 10800, advances it to 10900 and writes the state
    there; the spot-refresh stream is due at 11100, and its action
    [f->setTime(t)] of line 177 runs all the same, at the clock 10800. *)
Lemma spot_refresh_not_due_counterexample :
  ~ (forall (kp_find : list KP -> aTime -> Z) (a : Options) (e : Env)
            (s0 s : State) (fuel : nat) (x : event),
       main_init kp_find a = Ok (e, s0) -> on_time e s0 = true ->
       snd (loop e fuel s0) = Running s ->
       In x (fst (body e s)) ->
       match x with
       | SetTime now => tFilling s = now
       | SetEPot now due _ | WriteState now due | WriteSamples now due =>
           due = now
       | _ => True
       end).
Proof.
  intros H.
  specialize (H find_first run_dt100 env_dt100 s0_dt100 s1_dt100 1%nat
                (SetTime 10800) eq_refl eq_refl eq_refl).
  cbv beta iota in H.
  assert (Hin : In (SetTime 10800) (fst (body env_dt100 s1_dt100))).
  { vm_compute. tauto. }
  specialize (H Hin). discriminate H.
Qed.

Lemma main_init_f (kp_find : list KP -> aTime -> Z) (a : Options) (e : Env)
    (s : State) :
  main_init kp_find a = Ok (e, s) ->
  t s = tNext s /\
  ((arg_filling a = false /\ f s = None) \/
   (arg_filling a = true /\ exists o, f s = Some o)).
Proof.
  unfold main_init, bind, make_filling. intros H.
  destruct (start_time a) as [tS|]; [ | discriminate H].
  destruct (stop_time a tS) as [tE|]; [ | discriminate H].
  destruct (kp_index (arg_kp a) (kp_find (arg_kp a) tS)) as [r|];
    [ | discriminate H].
  injection H as <- <-. cbn. split; [reflexivity | ].
  destruct (arg_filling a); [right | left]; eauto.
Qed.

(** [main] enters the loop on time when the periods are not negative, the
    forcing records are in non-decreasing time order and neither the first
    forcing time nor the output-start time is before the start time. *)
Lemma main_init_on_time (kp_find : list KP -> aTime -> Z) (a : Options)
    (e : Env) (s : State) :
  main_init kp_find a = Ok (e, s) ->
  0 <= arg_dt a ->
  nondecreasing (map getTime (arg_kp a)) = true ->
  t s <= tKp s -> t s <= tWriteState s -> t s <= tWriteSample s ->
  on_time e s = true.
Proof.
  unfold main_init, bind. intros H Hdt Hs.
  destruct (start_time a) as [tS|]; [ | discriminate H].
  destruct (stop_time a tS) as [tE|]; [ | discriminate H].
  destruct (kp_index (arg_kp a) (kp_find (arg_kp a) tS)) as [r|] eqn:Hr;
    [ | discriminate H].
  injection H as <- <-. cbn. intros H1 H2 H3.
  apply on_time_spec. cbn.
  repeat (split; [first [lia | assumption] | ]). split.
  - intros r' Hr'. unfold kp_index in Hr. unfold kp_at in Hr'. cbn in Hr'.
    rewrite Hr' in Hr. injection Hr as <-. reflexivity.
  - intros c Hc. destruct (arg_samples a); [ | discriminate Hc].
    injection Hc as <-. cbn. lia.
Qed.

Lemma body_keeps_f (e : Env) (s : State) (ev : list event)
    (r : result State) (o : Spot.SPOTFILLING) :
  f s = Some o -> body e s = (ev, r) ->
  r <> Fault UninitializedPointer /\
  (forall s', r = Ok s' -> exists o', f s' = Some o').
Proof.
  intros Hf H. run_body H.
  all: injection H as <- <-.
  all: split; [discriminate | intros s' Hs'; try discriminate Hs'].
  all: injection Hs' as <-; cbn; eauto.
Qed.

Lemma loop_keeps_f (e : Env) (fuel : nat) (s : State)
    (o : Spot.SPOTFILLING) :
  f s = Some o -> snd (loop e fuel s) <> Stopped UninitializedPointer.
Proof.
  revert s o. induction fuel as [|k IH]; intros s o Hf; cbn [loop].
  - destruct (tNext s <=? tStop e); discriminate.
  - destruct (tNext s <=? tStop e); [ | discriminate].
    destruct (body e s) as [ev [s'|x]] eqn:Hb.
    + destruct (body_keeps_f _ _ _ _ _ Hf Hb) as [_ Hk].
      destruct (Hk s' eq_refl) as [o' Ho'].
      specialize (IH s' o' Ho'). destruct (loop e k s') as [ev' r]. exact IH.
    + destruct (body_keeps_f _ _ _ _ _ Hf Hb) as [Hx _]. cbn.
      intros Heq. apply Hx. congruence.
Qed.

(** C10.  When [main] reaches the loop and the loop condition holds on
    entry: without the filling option the pointer [f] has not been assigned
    and the first iteration stops at [f->setTime(t)], before any other
    call; with the option, no run stops on that pointer. *)
Theorem filling_pointer_precondition (kp_find : list KP -> aTime -> Z)
    (a : Options) (e : Env) (s : State) :
  main_init kp_find a = Ok (e, s) ->
  tNext s <= tStop e ->
  (arg_filling a = false ->
   forall fuel, main kp_find (S fuel) a = ([], Stopped UninitializedPointer))
  /\
  (arg_filling a = true ->
   forall fuel, snd (main kp_find fuel a) <> Stopped UninitializedPointer).
Proof.
  intros Hinit Hgo. destruct (main_init_f _ _ _ _ Hinit) as [_ Hf].
  unfold main. rewrite Hinit. split; intros Ha fuel.
  - destruct Hf as [[_ Hf]|[Hb _]]; [ | congruence].
    cbn [loop]. apply Z.leb_le in Hgo. rewrite Hgo.
    unfold body, and_then, call_setTime. rewrite Hf. reflexivity.
  - destruct Hf as [[Hb _]|[_ [o Hf]]]; [congruence | ].
    apply (loop_keeps_f _ _ _ _ Hf).
Qed.

Lemma filling_pointer_precondition_witness :
  main_init find_first run_no_filling = Ok (env_dt100, s0_no_filling) /\
  main find_first 1 run_no_filling = ([], Stopped UninitializedPointer).
Proof.
  split; [reflexivity | ].
  refine (proj1 (filling_pointer_precondition find_first run_no_filling
                   env_dt100 s0_no_filling eq_refl _) eq_refl 0%nat).
  cbn. lia.
Defined.

End SchedProps.


(* ===================================================================== *)
(** * Further properties of the spot-filling stage                      *)
(* ===================================================================== *)

Module SpotMore.
Import Ieee Spot SpotAux Examples SpotExamples.

Lemma shape_grid_set (g : GRID) (iP iT : nat) (x : spec_float) :
  shape (grid_set g iP iT x) = shape g.
Proof.
  unfold shape, grid_set. revert iP.
  induction g as [|row g IH]; intros iP; [reflexivity | ].
  destruct iP as [|iP]; cbn.
  - rewrite length_insert. reflexivity.
  - f_equal. apply IH.
Qed.

Lemma for_upto_invariant {A : Type} (P : A -> Prop)
    (body : nat -> A -> option A) (n : nat) (a a' : A) :
  (forall i x y, body i x = Some y -> P x -> P y) ->
  P a -> for_upto body n a = Some a' -> P a'.
Proof.
  intros Hb Ha. revert a'. induction n as [|k IH]; intros a' H; cbn in H.
  - injection H as <-. exact Ha.
  - destruct (for_upto body k a) as [a1|] eqn:Hk; [ | discriminate H].
    cbn in H. apply (Hb k a1 a' H). apply IH. reflexivity.
Qed.

Lemma for_upto_fixed {A : Type} (body : nat -> A -> option A) (n : nat)
    (a : A) :
  (forall i, (i < n)%nat -> body i a = Some a) -> for_upto body n a = Some a.
Proof.
  induction n as [|k IH]; intros Hb; [reflexivity | ].
  cbn. rewrite IH by (intros i Hi; apply Hb; lia). cbn. apply Hb. lia.
Qed.

(** ** No fsqrt result is below zero *)

Lemma binary_round_aux_not_negative (prec emax : Z) (m e : Z) (l : location) :
  not_negative (binary_round_aux prec emax false m e l) = true.
Proof.
  unfold binary_round_aux.
  destruct (shr_fexp prec emax m e l) as [mrs' e'].
  destruct (shr_fexp prec emax _ e' loc_Exact) as [mrs'' e''].
  destruct (shr_m mrs'') as [|p|p]; try reflexivity.
  destruct (e'' <=? emax - prec); reflexivity.
Qed.

Lemma fsqrt_not_negative (x : spec_float) : not_negative (fsqrt x) = true.
Proof.
  unfold fsqrt, SFsqrt. destruct x as [s|s| |s m e]; try reflexivity.
  - destruct s; reflexivity.
  - destruct s; [reflexivity | ].
    destruct (SFsqrt_core_binary 24 128 (Zpos m) e) as [[mz ez] lz].
    apply binary_round_aux_not_negative.
Qed.

Lemma flt_not_negative (y r : spec_float) :
  not_negative y = true -> flt (S754_zero false) r = false -> flt y r = false.
Proof.
  unfold flt, SFltb, SFcompare.
  destruct y as [sy|sy| |sy my ey], r as [sr|sr| |sr mr er]; cbn;
    try destruct sy; try destruct sr; try reflexivity; try discriminate.
Qed.

(** ** Differences and products of zeros *)

Lemma fsub_diag (x : spec_float) :
  is_finite x = true -> fsub x x = S754_zero false.
Proof.
  destruct x as [s|s| |s m e]; try discriminate; intros _.
  - destruct s; reflexivity.
  - unfold fsub, SFsub. rewrite Z.min_id. unfold shl_align.
    rewrite !Z.sub_diag. reflexivity.
Qed.

Lemma dmul_zero_l (s : bool) (y : spec_float) :
  is_finite y = true -> is_zero (dmul (S754_zero s) y) = true.
Proof. destruct y as [sy|sy| |sy my ey]; try discriminate; reflexivity. Qed.

Lemma to_float_zero (x : spec_float) :
  is_zero x = true -> is_zero (to_float x) = true.
Proof. destruct x; try discriminate; reflexivity. Qed.

Lemma fmul_zero_square (x : spec_float) :
  is_zero x = true -> fmul x x = S754_zero false.
Proof. destruct x as [[|]| | |]; try discriminate; reflexivity. Qed.

(** ** Values that the two tests of lines 82-85 leave alone *)

Lemma wrap_dP_fixed (d : spec_float) :
  fle (f_of_Z (-180)) d = true -> fle d (f_of_Z 180) = true ->
  wrap_dP d = d.
Proof.
  unfold fle, wrap_dP, fgt, flt. intros Hlo Hhi.
  rewrite (IeeeProps.flt_false_of_fle _ _ Hhi).
  rewrite (IeeeProps.flt_false_of_fle _ _ Hlo). reflexivity.
Qed.

(** X1.  The two tests of lines 82-85 applied to their own result change
    nothing: for a difference between -540 and 540 degrees, wrapping the
    wrapped difference gives the wrapped difference. *)
Theorem wrap_dP_idempotent (d : spec_float) :
  valid_binary 24 128 d = true ->
  fle (f_of_Z (-540)) d = true -> fle d (f_of_Z 540) = true ->
  wrap_dP (wrap_dP d) = wrap_dP d.
Proof.
  intros Hv Hlo Hhi.
  destruct (IeeeProps.wrap_dP_range d Hv Hlo Hhi) as [H1 H2].
  apply wrap_dP_fixed; assumption.
Qed.

Lemma wrap_dP_idempotent_witness :
  wrap_dP (wrap_dP (f_of_Z (-340))) = wrap_dP (f_of_Z (-340)).
Proof.
  apply (wrap_dP_idempotent (f_of_Z (-340))); vm_compute; reflexivity.
Defined.

Section Stage.
Variable sin : spec_float -> spec_float.
Variable saturation : spec_float -> spec_float.
Variable FILLING_filling : SPOTFILLING -> Args -> spec_float -> Args.

Local Abbreviation in_spot := (Spot.in_spot sin).
Local Abbreviation radius := (Spot.radius sin).
Local Abbreviation spot_cell := (Spot.spot_cell sin saturation).
Local Abbreviation overlay := (Spot.overlay sin saturation).
Local Abbreviation filling := (Spot.filling sin saturation FILLING_filling).

Lemma spot_cell_kept (o : SPOTFILLING) (dt : spec_float) (iT iP : nat)
    (a0 a a' : Args) :
  spot_cell o dt iT iP a = Some a' -> kept a0 a -> kept a0 a'.
Proof.
  unfold Spot.spot_cell. intros H Hk.
  destruct (vT a !! iT) as [vt|]; [ | discriminate H].
  destruct (vP a !! iP) as [vp|]; [ | discriminate H]. cbn in H.
  destruct (in_spot o vt vp); [ | injection H as <-; exact Hk].
  destruct (grid_get (mGridDen a) iP iT) as [den|]; [ | discriminate H].
  destruct (grid_get (mGridN a) iP iT) as [n|]; [ | discriminate H].
  destruct (grid_get (mGridBi a) iP iT) as [bi|]; [ | discriminate H].
  destruct (grid_get (mGridVol a) iP iT) as [vol|]; [ | discriminate H].
  cbn in H. injection H as <-.
  destruct Hk as ((H1 & H2 & H3 & H4 & H5 & H6) & HN & HD).
  split; [repeat split; assumption | ]. cbn.
  rewrite !shape_grid_set. split; assumption.
Qed.

Lemma overlay_kept (o : SPOTFILLING) (dt : spec_float) (a a' : Args) :
  overlay o dt a = Some a' -> kept a a'.
Proof.
  unfold Spot.overlay. intros H.
  apply (for_upto_invariant (kept a) _ _ _ _) in H; [exact H | | ].
  - intros iT x y Hin Hx.
    apply (for_upto_invariant (kept a) _ _ _ _) in Hin; [exact Hin | | exact Hx].
    intros iP x' y' Hc Hx'. apply (spot_cell_kept _ _ _ _ _ _ _ Hc Hx').
  - repeat split.
Qed.

(** X3.  Whatever the stage does, it hands back the coordinate vectors and
    the grids Vol, Oc and Bi as the baseline left them, and the grids N and
    Den with the dimensions the baseline left: the overlay writes single
    cells of N and Den and nothing else. *)
Theorem filling_keeps_other_arguments (o : SPOTFILLING) (a a' : Args)
    (dt : spec_float) (out : list string) :
  filling o a dt = Some (a', out) ->
  let b := FILLING_filling o a dt in
  vR a' = vR b /\ vT a' = vT b /\ vP a' = vP b /\
  mGridVol a' = mGridVol b /\ mGridOc a' = mGridOc b /\
  mGridBi a' = mGridBi b /\
  map length (mGridN a') = map length (mGridN b) /\
  map length (mGridDen a') = map length (mGridDen b).
Proof.
  intros H b. unfold Spot.filling in H. fold b in H. cbv zeta in H.
  destruct (active o).
  - destruct (overlay o dt b) as [a2|] eqn:Ho; [ | discriminate H].
    cbn in H. injection H as Ha _. subst a'.
    destruct (overlay_kept _ _ _ _ Ho) as ((H1 & H2 & H3 & H4 & H5 & H6) & HN & HD).
    repeat split; assumption.
  - injection H as Ha _. subst a'. repeat split.
Qed.

Lemma overlay_nothing_in_spot (o : SPOTFILLING) (dt : spec_float) (a : Args) :
  (forall vt vp, in_spot o vt vp = false) -> overlay o dt a = Some a.
Proof.
  intros Hout. unfold Spot.overlay.
  apply for_upto_fixed. intros iT HT. apply for_upto_fixed. intros iP HP.
  unfold Spot.spot_cell.
  destruct (lookup_lt_is_Some_2 _ _ HT) as [vt ->].
  destruct (lookup_lt_is_Some_2 _ _ HP) as [vp ->]. cbn.
  rewrite Hout. reflexivity.
Qed.

(** X4.  With a radius that is zero, negative or a NaN no cell passes the
    test [r<R] of line 90, the distance being a square root: the stage
    returns what the baseline returned, and only prints its message while
    the spot is active. *)
Theorem no_injection_without_radius (o : SPOTFILLING) (a : Args)
    (dt : spec_float) :
  flt (S754_zero false) (R o) = false ->
  filling o a dt
    = Some (FILLING_filling o a dt,
            if active o then ["In spot time interval"%string] else []).
Proof.
  intros HR. unfold Spot.filling. destruct (active o); [ | reflexivity].
  rewrite overlay_nothing_in_spot; [reflexivity | ].
  intros vt vp. unfold Spot.in_spot, Spot.radius.
  apply flt_not_negative; [apply fsqrt_not_negative | exact HR].
Qed.

(** X5.  With no colatitude or no local time the loops of lines 77-78 have
    no iteration: the stage returns what the baseline returned and reads no
    grid, whatever the dimensions of the grids. *)
Theorem empty_coordinates_no_injection (o : SPOTFILLING) (a : Args)
    (dt : spec_float) :
  vT (FILLING_filling o a dt) = [] \/ vP (FILLING_filling o a dt) = [] ->
  filling o a dt
    = Some (FILLING_filling o a dt,
            if active o then ["In spot time interval"%string] else []).
Proof.
  intros H. unfold Spot.filling. destruct (active o); [ | reflexivity].
  unfold Spot.overlay. rewrite for_upto_fixed; [reflexivity | ].
  intros iT HT. destruct H as [H|H]; rewrite H in *; cbn in *; [lia | ].
  reflexivity.
Qed.

Lemma dT_of_centre (x : spec_float) :
  is_finite x = true -> dT_of x x = S754_zero false.
Proof. intros H. unfold dT_of. rewrite (fsub_diag x H). reflexivity. Qed.

Lemma dLon_centre (x : spec_float) :
  is_finite x = true -> dLon x x = S754_zero false.
Proof. intros H. unfold dLon. rewrite (fsub_diag x H). reflexivity. Qed.

(** X2.  At the centre of the spot the distance of line 87 is exactly
    zero, whatever [sin] returns as long as it is finite there; so the cell
    at the centre is injected exactly when the radius [R] is above zero. *)
Theorem centre_cell_in_spot (o : SPOTFILLING) :
  is_finite (tCenter o) = true -> is_finite (pCenter o) = true ->
  is_finite (sin (dmul (to_double (fdiv (tCenter o) (f_of_Z 180))) M_PI))
    = true ->
  radius o (tCenter o) (pCenter o) = S754_zero false /\
  in_spot o (tCenter o) (pCenter o) = flt (S754_zero false) (R o).
Proof.
  intros Ht Hp Hs.
  assert (Hr : radius o (tCenter o) (pCenter o) = S754_zero false).
  { unfold Spot.radius. cbv zeta. rewrite (dT_of_centre _ Ht).
    unfold Spot.dP_of. rewrite (dLon_centre _ Hp).
    change (dmul (dmul (to_double (fdiv (S754_zero false) (f_of_Z 180))) M_PI)
                 (to_double RE)) with (S754_zero false).
    rewrite (fmul_zero_square _ (to_float_zero _ (dmul_zero_l false _ Hs))).
    reflexivity. }
  split; [exact Hr | ]. unfold Spot.in_spot. rewrite Hr. reflexivity.
Qed.

End Stage.

Lemma centre_cell_in_spot_witness :
  Spot.radius sin_series (spot_at 50) (f_of_Z 30) (f_of_Z 315)
    = S754_zero false /\
  Spot.in_spot sin_series (spot_at 50) (f_of_Z 30) (f_of_Z 315) = true.
Proof.
  destruct (centre_cell_in_spot sin_series (spot_at 50)) as [Hr Hi];
    [reflexivity | reflexivity | vm_compute; reflexivity | ].
  split; [exact Hr | exact Hi].
Defined.

Lemma filling_keeps_other_arguments_witness :
  exists a' out,
    Spot.filling sin_series saturation_500 baseline_id (spot_at 50) two_cells
      (f_of_Z 1) = Some (a', out) /\
    vR a' = vR two_cells /\ vT a' = vT two_cells /\ vP a' = vP two_cells /\
    mGridVol a' = mGridVol two_cells /\ mGridOc a' = mGridOc two_cells /\
    mGridBi a' = mGridBi two_cells /\
    map length (mGridN a') = [1; 1]%nat /\
    map length (mGridDen a') = [1; 1]%nat.
Proof.
  destruct (Spot.filling sin_series saturation_500 baseline_id (spot_at 50)
              two_cells (f_of_Z 1)) as [[a' out]|] eqn:H;
    [ | vm_compute in H; discriminate H].
  exists a', out. split; [reflexivity | ].
  apply (filling_keeps_other_arguments sin_series saturation_500 baseline_id
           (spot_at 50) two_cells a' (f_of_Z 1) out H).
Defined.

Lemma no_injection_without_radius_witness :
  Spot.filling sin_series saturation_500 baseline_id (spot_no_radius 50)
    two_cells (f_of_Z 1)
  = Some (two_cells, ["In spot time interval"%string]).
Proof.
  apply (no_injection_without_radius sin_series saturation_500 baseline_id
           (spot_no_radius 50) two_cells (f_of_Z 1)).
  reflexivity.
Defined.

Lemma empty_coordinates_no_injection_witness :
  Spot.filling sin_series saturation_500 baseline_id (spot_at 50)
    no_colatitude (f_of_Z 1)
  = Some (no_colatitude, ["In spot time interval"%string]).
Proof.
  apply (empty_coordinates_no_injection sin_series saturation_500 baseline_id
           (spot_at 50) no_colatitude (f_of_Z 1)).
  left. reflexivity.
Defined.

End SpotMore.


(* ===================================================================== *)
(** * Further properties of the time-stepping driver                    *)
(* ===================================================================== *)

Module SchedMore.
Import Sched SchedAux Examples SchedExamples SchedProps.

Lemma advances_app (ev ev' : list event) :
  advances (ev ++ ev') = advances ev ++ advances ev'.
Proof. apply omap_app. Qed.

Lemma total_app (l l' : list Z) : total (l ++ l') = total l + total l'.
Proof.
  unfold total. induction l as [|x l IH]; simpl; [reflexivity | ].
  rewrite IH. lia.
Qed.

Lemma body_advance (e : Env) (s s' : State) (ev : list event) :
  body e s = (ev, Ok s') ->
  t s' = t s + total (advances ev) /\ Forall (fun d => 0 < d) (advances ev).
Proof.
  intros H. destruct (body_clock _ _ _ _ H) as (_ & _ & Hadv & Hstay).
  destruct (Z.lt_ge_cases (t s) (tNext s)) as [Hlt|Hge].
  - destruct (Hadv Hlt) as [-> ->]. unfold total. cbn. split; [lia | ].
    repeat constructor. lia.
  - destruct (Hstay Hge) as [-> ->]. unfold total. cbn.
    split; [lia | constructor].
Qed.

(** X6.  Over any number of iterations the clock has moved by the sum of
    the steps handed to [m.advance], and every such step is positive: the
    model is never advanced by zero or backwards (lines 180-184). *)
Theorem advances_add_up (e : Env) (fuel : nat) (s s' : State) :
  last_state (snd (loop e fuel s)) = Some s' ->
  t s' = t s + total (advances (fst (loop e fuel s))) /\
  Forall (fun d => 0 < d) (advances (fst (loop e fuel s))).
Proof.
  revert s. induction fuel as [|k IH]; intros s; cbn [loop].
  - destruct (tNext s <=? tStop e); cbn; intros H; injection H as <-;
      (split; [unfold total; cbn; lia | constructor]).
  - destruct (tNext s <=? tStop e);
      [ | cbn; intros H; injection H as <-;
          split; [unfold total; cbn; lia | constructor]].
    destruct (body e s) as [ev [s1|x]] eqn:Hb; [ | discriminate].
    specialize (IH s1). destruct (loop e k s1) as [ev' r].
    cbn [fst snd] in *. intros H. destruct (IH H) as [Ht Hpos].
    destruct (body_advance _ _ _ _ Hb) as [Ht1 Hpos1].
    rewrite advances_app, total_app. split; [lia | ].
    apply Forall_app. split; assumption.
Qed.


(** Everything an iteration that completes does to the variables. *)
Lemma body_fields (e : Env) (s s' : State) (ev : list event) :
  body e s = (ev, Ok s') ->
  let t' := if 0 <? tNext s - t s then tNext s else t s in
  t s' = t' /\ tFilling s' = tFilling s + 300 /\
  tNext s' = next_time s' /\
  (exists o, f s = Some o /\ f s' = Some (Spot.setTime o (t s))) /\
  (if tKp s <=? t' then
     exists r, kp_at e (iKp s) = Some r /\ iKp s' = iKp s + 1 /\
       tKp s' = (if Z.of_nat (length (kp e)) <=? iKp s + 1 then tStop e + 1
                 else match kp_at e (iKp s + 1) with
                      | Some r' => getTime r'
                      | None => tKp s
                      end)
   else iKp s' = iKp s /\ tKp s' = tKp s) /\
  (if tWriteState s <=? t' then tWriteState s' = tWriteState s + dt e
   else tWriteState s' = tWriteState s) /\
  (if tWriteSample s <=? t' then
     exists c, samples s = Some c /\ samples s' = Some (sample_incr c) /\
       tWriteSample s' = sTime c + sPeriod c
   else samples s' = samples s /\ tWriteSample s' = tWriteSample s).
Proof.
  intros H. run_body H.
  all: injection H as <- <-; cbn.
  all: repeat match goal with
              | Hc : ?c = _ |- context [?c] => rewrite Hc
              end.
  all: repeat split; eauto.
Qed.


(** The calls of an iteration, whether it completes or not, are made at the
    clock reached by the advance and carry the due time of their stream. *)
Lemma body_events (e : Env) (s : State) (ev : list event)
    (r : result State) :
  body e s = (ev, r) ->
  let t' := if 0 <? tNext s - t s then tNext s else t s in
  Forall (fun x =>
            match x with
            | PrintTime time => time = t'
            | SetEPot now due v =>
                now = t' /\ due = tKp s /\ tKp s <= t' /\
                exists rec, kp_at e (iKp s) = Some rec /\ v = getKp rec
            | WriteState now due =>
                now = t' /\ due = tWriteState s /\ tWriteState s <= t'
            | WriteSamples now due =>
                now = t' /\ due = tWriteSample s /\ tWriteSample s <= t' /\
                is_Some (samples s)
            | _ => True
            end) ev.
Proof.
  intros H. run_body H.
  all: injection H as <- <-; bool_to_Z; cbn.
  all: repeat constructor; eauto; try lia.
Qed.

Lemma kp_at_Some (e : Env) (i : Z) :
  0 <= i < Z.of_nat (length (kp e)) -> is_Some (kp_at e i).
Proof.
  intros H. unfold kp_at. destruct (Z.ltb_spec i 0); [lia | ].
  apply lookup_lt_is_Some_2. lia.
Qed.

Lemma kp_at_range (e : Env) (i : Z) (r : KP) :
  kp_at e i = Some r -> 0 <= i < Z.of_nat (length (kp e)).
Proof.
  unfold kp_at. destruct (Z.ltb_spec i 0) as [Hneg|Hpos]; [discriminate | ].
  intros Hl. apply lookup_lt_Some in Hl. lia.
Qed.

(** An iteration entered with the condition of the loop true keeps
    [in_run], stays within the end of the run, and stops on a fault only
    when the pointer [f] was not assigned. *)
Lemma body_in_run (e : Env) (s : State) (ev : list event)
    (r : result State) :
  in_run e s -> tNext s <= tStop e -> body e s = (ev, r) ->
  match r with
  | Ok s' => in_run e s' /\ t s' <= tStop e
  | Fault x => x = UninitializedPointer /\ f s = None
  end.
Proof.
  intros (Ht & Hkp & Hs & Hw) Hgo H.
  run_body H.
  all: injection H as <- <-; bool_to_Z.
  all: try match goal with
           | Hx : None = None -> _ |- _ => specialize (Hx eq_refl)
           end.
  all: try match goal with
           | Hx : is_Some (Some ?c) -> _ |- _ =>
               specialize (Hx (ex_intro _ c eq_refl))
           end.
  all: try match goal with
           | Hx : _ -> is_Some None |- _ =>
               assert (tStop e < tKp s)
                 by (destruct (Z.lt_ge_cases (tStop e) (tKp s)) as [|Hle];
                     [assumption | destruct (Hx Hle); discriminate])
           end.
  all: repeat match goal with
              | Hr : kp_at _ _ = Some _ |- _ => apply kp_at_range in Hr
              end.
  all: try match goal with
           | Hn : kp_at ?e ?i = None |- _ =>
               assert (~ 0 <= i < Z.of_nat (length (kp e)))
                 by (intros Hi; destruct (kp_at_Some e i Hi); congruence)
           end.
  all: try (split; reflexivity).
  all: try (exfalso; lia).
  all: unfold in_run; cbn; rewrite ?next_time_min; cbn.
  all: split; [split; [lia | ] | lia].
  all: split; [intros; apply kp_at_Some; lia | ].
  all: split; intros Hx; first [lia | discriminate Hx | assumption
                               | destruct Hx; discriminate ].
Qed.


Lemma main_init_in_run (kp_find : list KP -> aTime -> Z) (a : Options)
    (e : Env) (s : State) :
  main_init kp_find a = Ok (e, s) ->
  in_run e s /\
  (samples s = None <-> arg_samples a = false) /\
  (f s = None <-> arg_filling a = false).
Proof.
  unfold main_init, bind, make_filling. intros H.
  destruct (start_time a) as [tS|]; [ | discriminate H].
  destruct (stop_time a tS) as [tE|]; [ | discriminate H].
  destruct (kp_index (arg_kp a) (kp_find (arg_kp a) tS)) as [r|] eqn:Hr;
    [ | discriminate H].
  injection H as <- <-. unfold in_run. cbn.
  assert (Hk : kp_at (mkEnv (arg_kp a) tE (arg_dt a))
                 (kp_find (arg_kp a) tS) = Some r).
  { unfold kp_index in Hr. unfold kp_at. cbn.
    destruct (if kp_find (arg_kp a) tS <? 0 then None
              else arg_kp a !! Z.to_nat (kp_find (arg_kp a) tS));
      [injection Hr as ->; reflexivity | discriminate Hr]. }
  split; [split; [lia | split; [rewrite Hk; eauto | ]] | ].
  - destruct (arg_samples a); cbn; split; intros Hx;
      first [reflexivity | discriminate Hx | destruct Hx; discriminate].
  - destruct (arg_samples a), (arg_filling a); cbn;
      repeat split; intros Hx; first [reflexivity | discriminate Hx].
Qed.

Lemma loop_in_run (e : Env) (fuel : nat) (s : State) :
  in_run e s ->
  (forall x, snd (loop e fuel s) = Stopped x ->
             x = UninitializedPointer /\ f s = None) /\
  Forall (fun x =>
            match x with
            | WriteState _ _ => samples s = None
            | WriteSamples _ _ => is_Some (samples s)
            | _ => True
            end) (fst (loop e fuel s)).
Proof.
  revert s. induction fuel as [|k IH]; intros s Hin; cbn [loop].
  - destruct (tNext s <=? tStop e); (split; [discriminate | constructor]).
  - destruct (Z.leb_spec (tNext s) (tStop e)) as [Hgo|];
      [ | split; [discriminate | constructor]].
    destruct (body e s) as [ev [s1|x]] eqn:Hb.
    + pose proof (body_in_run _ _ _ _ Hin Hgo Hb) as [Hin1 Ht1].
      pose proof (body_events _ _ _ _ Hb) as Hev. cbv zeta in Hev.
      destruct (body_fields _ _ _ _ Hb)
        as (Ht' & _ & _ & (o & Hf & Hf1) & _ & _ & Hsm).
      cbv zeta in Ht'. rewrite <- Ht' in Hev, Hsm.
      destruct (IH s1 Hin1) as [IHs IHe].
      destruct (loop e k s1) as [ev' r]. cbn [fst snd] in *.
      assert (Hsame : samples s1 = None <-> samples s = None).
      { destruct (tWriteSample s <=? t s1).
        - destruct Hsm as (c & -> & -> & _). split; discriminate.
        - destruct Hsm as [-> _]. reflexivity. }
      destruct Hin as (_ & _ & Hs & Hw). split.
      * intros x Hx. destruct (IHs x Hx) as [-> Hn]. congruence.
      * apply Forall_app. split.
        -- eapply Forall_impl; [exact Hev | ].
           intros [ | | | | now due | now due]; cbn; try tauto.
           intros (_ & _ & Hdue).
           destruct (samples s) as [c|] eqn:Hc; [ | reflexivity].
           rewrite Hw in Hdue by eauto. lia.
        -- eapply Forall_impl; [exact IHe | ].
           intros [ | | | | now due | now due]; cbn; try tauto.
           intros [c Hc]. destruct (samples s) as [c0|]; [eauto | ].
           destruct Hsame as [_ Hx]. rewrite Hx in Hc by reflexivity.
           discriminate.
    + pose proof (body_in_run _ _ _ _ Hin Hgo Hb) as [-> Hf].
      pose proof (body_events _ _ _ _ Hb) as Hev. cbv zeta in Hev.
      cbn [fst snd]. split.
      * intros x Hx. injection Hx as <-. split; [reflexivity | exact Hf].
      * unfold body, and_then, call_setTime in Hb. rewrite Hf in Hb.
        injection Hb as <-. constructor.
Qed.

(** X7.  Once [main] has reached the loop, the only way the loop leaves
    defined behaviour is the call through the unassigned pointer [f] of a
    run without [-f]: the forcing index stays within [kp] and the sample
    cursor is never used while it is NULL. *)
Theorem loop_faults_only_on_unassigned_pointer
    (kp_find : list KP -> aTime -> Z) (a : Options) (e : Env) (s : State)
    (fuel : nat) (x : fault) :
  main_init kp_find a = Ok (e, s) ->
  snd (main kp_find fuel a) = Stopped x ->
  x = UninitializedPointer /\ arg_filling a = false.
Proof.
  intros Hinit. unfold main. rewrite Hinit.
  destruct (main_init_in_run _ _ _ _ Hinit) as (Hin & _ & Hf).
  intros Hx. destruct (proj1 (loop_in_run e fuel s Hin) x Hx) as [-> Hn].
  split; [reflexivity | apply Hf, Hn].
Qed.

(** X8.  A run writes either states or samples, never both: [writeState]
    is called only in a run without a sample file and [writeSamples] only in
    a run with one (lines 150-168 set the due time of the other stream one
    second after the end of the run). *)
Theorem one_output_mode (kp_find : list KP -> aTime -> Z) (a : Options)
    (fuel : nat) (now due : aTime) :
  (In (WriteState now due) (fst (main kp_find fuel a)) ->
   arg_samples a = false) /\
  (In (WriteSamples now due) (fst (main kp_find fuel a)) ->
   arg_samples a = true).
Proof.
  unfold main. destruct (main_init kp_find a) as [[e s]|x] eqn:Hinit;
    [ | split; intros []].
  destruct (main_init_in_run _ _ _ _ Hinit) as (Hin & Hs & _).
  pose proof (proj2 (loop_in_run e fuel s Hin)) as Hev.
  rewrite Forall_forall in Hev.
  split; intros Hx; apply list_elem_of_In in Hx; apply Hev in Hx; cbn in Hx.
  - apply Hs, Hx.
  - destruct (arg_samples a); [reflexivity | ].
    destruct Hx as [c Hc]. rewrite (proj2 Hs eq_refl) in Hc. discriminate.
Qed.


(** ** The clock stays within the run *)

Lemma printed_app (ev ev' : list event) :
  printed (ev ++ ev') = printed ev ++ printed ev'.
Proof. apply omap_app. Qed.

Lemma Forall_printed (Q : aTime -> Prop) (ev : list event) :
  Forall (fun x => match x with PrintTime time => Q time | _ => True end) ev ->
  Forall Q (printed ev).
Proof.
  induction 1 as [|x ev Hx _ IH]; [constructor | ].
  destruct x; cbn; try exact IH. constructor; assumption.
Qed.

(** X9.  A loop entered with the clock not after [tStop] never takes the
    clock back nor past [tStop]: every time printed by line 186, and the
    clock when the loop is left, lies between the clock on entry and
    [tStop]. *)
Theorem clock_within_run (e : Env) (fuel : nat) (s : State) :
  t s <= tStop e ->
  Forall (fun time => t s <= time <= tStop e) (printed (fst (loop e fuel s)))
  /\
  (forall s', last_state (snd (loop e fuel s)) = Some s' ->
              t s <= t s' <= tStop e).
Proof.
  revert s. induction fuel as [|k IH]; intros s Ht; cbn [loop].
  - destruct (tNext s <=? tStop e); cbn;
      (split; [constructor | intros s' Hs; injection Hs as <-; lia]).
  - destruct (Z.leb_spec (tNext s) (tStop e)) as [Hgo|];
      [ | cbn; split; [constructor | intros s' Hs; injection Hs as <-; lia]].
    destruct (body e s) as [ev [s1|x]] eqn:Hb.
    + pose proof (body_events _ _ _ _ Hb) as Hev. cbv zeta in Hev.
      destruct (body_fields _ _ _ _ Hb) as (Ht' & _). cbv zeta in Ht'.
      assert (Hb1 : t s <= t s1 <= tStop e).
      { rewrite Ht'. destruct (Z.ltb_spec 0 (tNext s - t s)); lia. }
      destruct (IH s1 (proj2 Hb1)) as [IHp IHs].
      destruct (loop e k s1) as [ev' r]. cbn [fst snd] in *.
      rewrite printed_app. split.
      * apply Forall_app. split.
        -- apply Forall_printed. eapply Forall_impl; [exact Hev | ].
           intros []; cbn; try tauto. intros ->. rewrite <- Ht'. exact Hb1.
        -- eapply Forall_impl; [exact IHp | ]. cbn. intros; lia.
      * intros s' Hs. specialize (IHs s' Hs). lia.
    + pose proof (body_events _ _ _ _ Hb) as Hev. cbv zeta in Hev.
      cbn [fst snd]. split; [ | discriminate].
      apply Forall_printed. eapply Forall_impl; [exact Hev | ].
      intros []; cbn; try tauto. intros ->.
      destruct (Z.ltb_spec 0 (tNext s - t s)); lia.
Qed.

Lemma clock_within_run_witness :
  printed (fst (loop env_dt100 2 s0_dt100)) = [10800; 10900] /\
  Forall (fun time => 10800 <= time <= 11800)
         (printed (fst (loop env_dt100 2 s0_dt100))).
Proof.
  split; [reflexivity | ].
  apply (proj1 (clock_within_run env_dt100 2 s0_dt100 ltac:(cbn; lia))).
Defined.

(** ** The forcing records are used in file order *)

Lemma body_forcing (e : Env) (s : State) (ev : list event)
    (r : result State) :
  body e s = (ev, r) ->
  (forcing ev = [] /\ forall s', r = Ok s' -> iKp s' = iKp s) \/
  (exists rec, kp_at e (iKp s) = Some rec /\ forcing ev = [getKp rec] /\
               forall s', r = Ok s' -> iKp s' = iKp s + 1).
Proof.
  intros H. run_body H.
  all: injection H as <- <-; cbn.
  all: first [ left; split; [reflexivity | ];
               intros s' Hs; first [discriminate Hs
                                   | injection Hs as <-; reflexivity]
             | right; eexists; split; [reflexivity | ];
               split; [reflexivity | ];
               intros s' Hs; first [discriminate Hs
                                   | injection Hs as <-; reflexivity] ].
Qed.

Lemma forcing_app (ev ev' : list event) :
  forcing (ev ++ ev') = forcing ev ++ forcing ev'.
Proof. apply omap_app. Qed.

(** X10.  The values handed to [m.setEPot] by lines 188-199 are those of
    consecutive records of the index file, starting at record [iKp], in the
    order of the file and without a gap. *)
Theorem forcing_in_file_order (e : Env) (fuel : nat) (s : State) :
  exists n,
    forcing (fst (loop e fuel s))
      = map getKp (take n (drop (Z.to_nat (iKp s)) (kp e))).
Proof.
  revert s. induction fuel as [|k IH]; intros s; cbn [loop].
  - exists 0%nat. destruct (tNext s <=? tStop e); reflexivity.
  - destruct (tNext s <=? tStop e); [ | exists 0%nat; reflexivity].
    destruct (body e s) as [ev r] eqn:Hb.
    destruct (body_forcing _ _ _ _ Hb) as [[Hf Hi]|(rec & Hk & Hf & Hi)].
    + destruct r as [s1|x].
      * destruct (IH s1) as [n Hn]. destruct (loop e k s1) as [ev' r'].
        cbn [fst] in *. exists n.
        rewrite forcing_app, Hf, Hn, (Hi s1 eq_refl). reflexivity.
      * exists 0%nat. cbn [fst]. rewrite Hf. reflexivity.
    + assert (Hd : drop (Z.to_nat (iKp s)) (kp e)
                   = rec :: drop (Z.to_nat (iKp s + 1)) (kp e)).
      { unfold kp_at in Hk. destruct (Z.ltb_spec (iKp s) 0); [discriminate | ].
        replace (Z.to_nat (iKp s + 1)) with (S (Z.to_nat (iKp s))) by lia.
        apply drop_S, Hk. }
      destruct r as [s1|x].
      * destruct (IH s1) as [n Hn]. destruct (loop e k s1) as [ev' r'].
        cbn [fst] in *. exists (S n).
        rewrite forcing_app, Hf, Hn, (Hi s1 eq_refl), Hd. reflexivity.
      * exists 1%nat. cbn [fst]. rewrite Hf, Hd. reflexivity.
Qed.


(** ** Termination *)

Lemma slots_step (stop due p : Z) :
  0 < p ->
  (slots stop (due + p) p <= slots stop due p)%nat /\
  (due <= stop -> (slots stop (due + p) p < slots stop due p)%nat).
Proof.
  intros Hp. unfold slots.
  destruct (Z.leb_spec (due + p) stop) as [H1|H1];
    destruct (Z.leb_spec due stop) as [H2|H2]; try lia.
  - replace (stop - (due + p)) with ((stop - due) + (-1) * p) by lia.
    rewrite Z.div_add by lia.
    assert (1 <= (stop - due) / p) by (apply Z.div_le_lower_bound; lia).
    lia.
  - assert (0 <= (stop - due) / p) by (apply Z.div_pos; lia).
    lia.
Qed.

Lemma body_remaining (e : Env) (s s' : State) (ev : list event) :
  ticking e s -> t s <= tStop e -> tNext s <= tStop e ->
  body e s = (ev, Ok s') ->
  ticking e s' /\ (remaining e s' < remaining e s)%nat.
Proof.
  intros (Hdt & Hn & Hc) Hts Hgo Hb.
  destruct (body_fields _ _ _ _ Hb) as (Ht & HF & HN & _ & HK & HW & HS).
  cbv zeta in *.
  set (t' := if 0 <? tNext s - t s then tNext s else t s) in *.
  assert (Ht' : tNext s <= t' <= tStop e).
  { subst t'. destruct (Z.ltb_spec 0 (tNext s - t s)); lia. }
  pose proof (next_time_min s) as Hmin.
  (* the spot-refresh stream *)
  destruct (slots_step (tStop e) (tFilling s) 300 ltac:(lia)) as [F1 F2].
  rewrite <- HF in F1, F2.
  (* the state-write stream *)
  assert (W : (slots (tStop e) (tWriteState s') (dt e)
               <= slots (tStop e) (tWriteState s) (dt e))%nat /\
              (tWriteState s <= t' -> tWriteState s <= tStop e ->
               (slots (tStop e) (tWriteState s') (dt e)
                < slots (tStop e) (tWriteState s) (dt e))%nat)).
  { destruct (Z.leb_spec (tWriteState s) t') as [Hd|Hd]; rewrite HW.
    - destruct (slots_step (tStop e) (tWriteState s) (dt e) Hdt). tauto.
    - split; [lia | intros; lia]. }
  (* the sample-write stream *)
  assert (S : (forall c, samples s' = Some c ->
                 sTime c = tWriteSample s' /\ 0 < sPeriod c) /\
              (slots (tStop e) (tWriteSample s') (sample_period s')
               <= slots (tStop e) (tWriteSample s) (sample_period s))%nat /\
              (tWriteSample s <= t' -> tWriteSample s <= tStop e ->
               (slots (tStop e) (tWriteSample s') (sample_period s')
                < slots (tStop e) (tWriteSample s) (sample_period s))%nat)).
  { destruct (Z.leb_spec (tWriteSample s) t') as [Hd|Hd].
    - destruct HS as (c & Hs & Hs' & Hw). destruct (Hc c Hs) as [Hc1 Hc2].
      unfold sample_period. rewrite Hs, Hs', Hw, Hc1. cbn [sample_incr sPeriod].
      split.
      + intros c' Hc'. injection Hc' as <-. cbn. lia.
      + destruct (slots_step (tStop e) (tWriteSample s) (sPeriod c) Hc2).
        tauto.
    - destruct HS as [Hs' Hw]. unfold sample_period. rewrite Hs', Hw.
      split; [exact Hc | ]. split; [lia | intros; lia]. }
  (* the forcing stream *)
  assert (K : (kp_left e s' <= kp_left e s)%nat /\
              (tKp s <= t' -> tKp s <= tStop e ->
               (kp_left e s' < kp_left e s)%nat)).
  { unfold kp_left. destruct (Z.leb_spec (tKp s) t') as [Hd|Hd].
    - destruct HK as (r & Hr & Hi & Hk). apply kp_at_range in Hr.
      rewrite Hi.
      destruct (Z.leb_spec (tKp s) (tStop e)), (Z.leb_spec (tKp s') (tStop e)).
      all: split; [ | intros _ _ ]; try lia.
      all: revert Hk; destruct (Z.leb_spec (Z.of_nat (length (kp e)))
                                           (iKp s + 1)); intros; lia.
    - destruct HK as [Hi Hk]. rewrite Hi, Hk.
      split; [lia | intros; lia]. }
  destruct S as (S0 & S1 & S2). destruct W as [W1 W2]. destruct K as [K1 K2].
  split.
  - split; [exact Hdt | ]. split; [lia | exact S0].
  - unfold remaining.
    assert (Hdue : tFilling s <= tStop e \/ tWriteSample s <= tNext s \/
                   tWriteState s <= tNext s \/ tKp s <= tNext s) by lia.
    destruct Hdue as [Hm|[Hm|[Hm|Hm]]].
    + specialize (F2 Hm). lia.
    + specialize (S2 ltac:(lia) ltac:(lia)). lia.
    + specialize (W2 ltac:(lia) ltac:(lia)). lia.
    + specialize (K2 ltac:(lia) ltac:(lia)). lia.
Qed.

Lemma loop_ends (e : Env) (fuel : nat) (s : State) :
  in_run e s -> ticking e s -> (remaining e s < fuel)%nat ->
  forall s', snd (loop e fuel s) <> Running s'.
Proof.
  revert s. induction fuel as [|k IH]; intros s Hin Hs Hr s'; [lia | ].
  cbn [loop]. destruct (Z.leb_spec (tNext s) (tStop e)) as [Hgo|];
    [ | discriminate].
  destruct (body e s) as [ev [s1|x]] eqn:Hb; [ | discriminate].
  assert (Hts : t s <= tStop e) by (destruct Hin as [[?|?] _]; lia).
  destruct (body_remaining _ _ _ _ Hs Hts Hgo Hb) as [Hs1 Hlt].
  pose proof (body_in_run _ _ _ _ Hin Hgo Hb) as [Hin1 _].
  specialize (IH s1 Hin1 Hs1 ltac:(lia) s').
  destruct (loop e k s1) as [ev' r]. exact IH.
Qed.

Lemma loop_finished (e : Env) (fuel : nat) (s s' : State) :
  snd (loop e fuel s) = Finished s' -> tStop e < tNext s'.
Proof.
  revert s. induction fuel as [|k IH]; intros s; cbn [loop].
  - destruct (Z.leb_spec (tNext s) (tStop e)); [discriminate | ].
    intros Hx. injection Hx as <-. assumption.
  - destruct (Z.leb_spec (tNext s) (tStop e));
      [ | intros Hx; injection Hx as <-; assumption].
    destruct (body e s) as [ev [s1|x]]; [ | discriminate].
    specialize (IH s1). destruct (loop e k s1) as [ev' r]. exact IH.
Qed.

Lemma main_init_ticking (kp_find : list KP -> aTime -> Z) (a : Options)
    (e : Env) (s : State) :
  main_init kp_find a = Ok (e, s) -> 0 < arg_dt a -> ticking e s.
Proof.
  unfold main_init, bind. intros H Hdt.
  destruct (start_time a) as [tS|]; [ | discriminate H].
  destruct (stop_time a tS) as [tE|]; [ | discriminate H].
  destruct (kp_index (arg_kp a) (kp_find (arg_kp a) tS)) as [r|];
    [ | discriminate H].
  injection H as <- <-. unfold ticking. cbn.
  split; [exact Hdt | ]. split.
  - match goal with |- next_time ?s <= _ => pose proof (next_time_min s) as Hm end.
    cbn in Hm. lia.
  - intros c. destruct (arg_samples a); [ | discriminate].
    intros Hc. injection Hc as <-. cbn. lia.
Qed.

(** With the pointer [f] assigned and an output period of at least one
    second, the loop is left after at most [remaining] iterations. *)
Lemma main_ends (kp_find : list KP -> aTime -> Z) (a : Options) (e : Env)
    (s : State) (fuel : nat) :
  main_init kp_find a = Ok (e, s) ->
  arg_filling a = true ->
  0 < arg_dt a ->
  (remaining e s < fuel)%nat ->
  exists s', snd (main kp_find fuel a) = Finished s' /\ tStop e < tNext s'.
Proof.
  intros Hinit Hf Hdt Hfuel.
  pose proof (main_init_ticking _ _ _ _ Hinit Hdt) as Htick.
  destruct (main_init_in_run _ _ _ _ Hinit) as (Hin & _ & Hfn).
  pose proof (loop_ends e fuel s Hin Htick Hfuel) as Hend.
  pose proof (proj1 (loop_in_run e fuel s Hin)) as Hfault.
  pose proof (loop_finished e fuel s) as Hfin.
  unfold main. rewrite Hinit.
  destruct (snd (loop e fuel s)) as [s'|x|s'] eqn:Hl.
  - exists s'. split; [reflexivity | apply Hfin; reflexivity].
  - destruct (Hfault x eq_refl) as [_ Hnone].
    apply Hfn in Hnone. congruence.
  - exfalso. apply (Hend s'). reflexivity.
Qed.

(** ** A period that is not positive *)

Lemma body_stuck (e : Env) (s s' : State) (ev : list event) :
  dt e <= 0 -> tWriteState s <= t s -> tNext s <= t s ->
  body e s = (ev, Ok s') ->
  t s' = t s /\ tWriteState s' <= t s' /\ tNext s' <= t s' /\
  printed ev = [t s].
Proof.
  intros Hdt Hw Hn Hb.
  destruct (body_fields _ _ _ _ Hb) as (Ht & _ & HN & _ & _ & HW & _).
  cbv zeta in *.
  destruct (Z.ltb_spec 0 (tNext s - t s)); [lia | ].
  destruct (Z.leb_spec (tWriteState s) (t s)); [ | lia].
  pose proof (next_time_min s') as Hmin.
  split; [exact Ht | ]. split; [lia | ]. split; [lia | ].
  clear - Hb Hn. run_body Hb.
  all: first [discriminate Hb | injection Hb as <- _; bool_to_Z;
              first [lia | reflexivity]].
Qed.

(** X12.  A run with [-f] that writes states, starts its output not after
    its start time and has an output period of zero or less never leaves the
    loop: after any number of iterations the condition of line 175 still
    holds, the clock is where it started and line 186 has printed that time
    once per iteration. *)
Theorem run_never_ends_for_nonpositive_period
    (kp_find : list KP -> aTime -> Z) (a : Options) (e : Env) (s : State)
    (fuel : nat) :
  main_init kp_find a = Ok (e, s) ->
  arg_filling a = true ->
  arg_dt a <= 0 ->
  tWriteState s <= t s <= tStop e ->
  exists s', snd (main kp_find fuel a) = Running s' /\
             t s' = t s /\
             printed (fst (main kp_find fuel a)) = repeat (t s) fuel.
Proof.
  intros Hinit Hf Hdt Hw.
  destruct (main_init_in_run _ _ _ _ Hinit) as (Hin & _ & Hfn).
  assert (Hde : dt e <= 0).
  { clear - Hinit Hdt. unfold main_init, bind in Hinit.
    destruct (start_time a); [ | discriminate].
    destruct (stop_time a _); [ | discriminate].
    destruct (kp_index _ _); [ | discriminate].
    injection Hinit as <- _. exact Hdt. }
  assert (Hn : tNext s <= t s).
  { clear - Hinit. unfold main_init, bind in Hinit.
    destruct (start_time a); [ | discriminate].
    destruct (stop_time a _); [ | discriminate].
    destruct (kp_index _ _); [ | discriminate].
    injection Hinit as _ <-. cbn. lia. }
  assert (Hsome : f s <> None).
  { intros Hnone. apply Hfn in Hnone. congruence. }
  unfold main. rewrite Hinit. clear Hinit Hfn Hf Hdt.
  assert (Hgen : forall k s0, in_run e s0 -> f s0 <> None ->
            tWriteState s0 <= t s0 <= tStop e -> tNext s0 <= t s0 ->
            exists s', snd (loop e k s0) = Running s' /\ t s' = t s0 /\
                       printed (fst (loop e k s0)) = repeat (t s0) k).
  { clear - Hde. intros k. induction k as [|k IH]; intros s0 Hin Hf0 Hw Hn;
      cbn [loop].
    - destruct (Z.leb_spec (tNext s0) (tStop e)); [ | lia].
      exists s0. repeat split.
    - destruct (Z.leb_spec (tNext s0) (tStop e)) as [Hgo|]; [ | lia].
      destruct (body e s0) as [ev [s1|x]] eqn:Hb.
      + destruct (body_stuck _ _ _ _ Hde (proj1 Hw) Hn Hb)
          as (Ht & Hw1 & Hn1 & Hp).
        destruct (body_in_run _ _ _ _ Hin Hgo Hb) as [Hin1 Hts1].
        assert (Hf1 : f s1 <> None).
        { destruct (body_fields _ _ _ _ Hb) as (_ & _ & _ & (o & _ & Ho) & _).
          congruence. }
        destruct (IH s1 Hin1 Hf1 ltac:(lia) Hn1) as (s' & Hr & Hts & Hpr).
        destruct (loop e k s1) as [ev' r]. cbn [fst snd] in *.
        exists s'. split; [exact Hr | ]. split; [congruence | ].
        rewrite printed_app, Hp, Hpr, Ht. reflexivity.
      + destruct (body_in_run _ _ _ _ Hin Hgo Hb) as [_ Hnone]. congruence. }
  apply Hgen; assumption.
Qed.


Lemma advances_add_up_witness :
  t s2_dt100 = t s0_dt100 + total (advances (fst (loop env_dt100 2 s0_dt100))).
Proof.
  apply (proj1 (advances_add_up env_dt100 2 s0_dt100 s2_dt100 eq_refl)).
Defined.

Lemma loop_faults_only_on_unassigned_pointer_witness :
  snd (main find_first 1 run_no_filling) = Stopped UninitializedPointer /\
  arg_filling run_no_filling = false.
Proof.
  split; [reflexivity | ].
  apply (proj2 (loop_faults_only_on_unassigned_pointer find_first
                  run_no_filling env_dt100 s0_no_filling 1
                  UninitializedPointer eq_refl eq_refl)).
Defined.

Lemma one_output_mode_witness :
  In (WriteState 10800 10800) (fst (main find_first 1 run_dt100)) /\
  arg_samples run_dt100 = false.
Proof.
  assert (H : In (WriteState 10800 10800) (fst (main find_first 1 run_dt100))).
  { vm_compute. repeat (first [left; reflexivity | right]). }
  split; [exact H | ].
  apply (proj1 (one_output_mode find_first run_dt100 1 10800 10800) H).
Defined.

Lemma run_never_ends_for_nonpositive_period_witness :
  exists s', snd (main find_first 5 run_dt0) = Running s' /\
             t s' = 10800 /\
             printed (fst (main find_first 5 run_dt0)) = repeat 10800 5.
Proof.
  apply (run_never_ends_for_nonpositive_period find_first run_dt0 env_dt0
           s0_dt100 5).
  - reflexivity.
  - reflexivity.
  - cbn. lia.
  - cbn. lia.
Defined.

End SchedMore.


(* ===================================================================== *)
(** * Properties of the command line                                    *)
(* ===================================================================== *)

Module CliProps.
Import Ieee Cli CliEx.

Section Parse.
Variable atoi : string -> Z.
Variable atof : string -> spec_float.
Variable aTime_set : Z -> Z -> Z -> Z -> aTime.

Local Abbreviation option_loop := (Cli.option_loop atoi atof aTime_set).
Local Abbreviation parseArgs := (Cli.parseArgs atoi atof aTime_set).

Lemma args_ind (P : list string -> Prop) :
  (forall l, (forall l', (length l' < length l)%nat -> P l') -> P l) ->
  forall l, P l.
Proof.
  intros H l. remember (length l) as n eqn:Hn. revert l Hn.
  induction n as [n IH] using lt_wf_ind. intros l ->.
  apply H. intros l' Hl. exact (IH _ Hl l' eq_refl).
Qed.

Ltac by_option a :=
  destruct (String.eqb_spec a "-s") as [->|?]; [ |
  destruct (String.eqb_spec a "-e") as [->|?]; [ |
  destruct (String.eqb_spec a "-so") as [->|?]; [ |
  destruct (String.eqb_spec a "-dt") as [->|?]; [ |
  destruct (String.eqb_spec a "-T") as [->|?]; [ |
  destruct (String.eqb_spec a "-o") as [->|?]; [ |
  destruct (String.eqb_spec a "-filling") as [->|?]; [ |
  destruct (String.eqb_spec a "-f") as [->|?]; [ |
  destruct (String.eqb_spec a "-saturation") as [->|?]; [ |
  destruct (String.eqb_spec a "-samples") as [->|?]; [ |
  destruct (String.eqb_spec a "-sStart") as [->|?]; [ |
  destruct (String.eqb_spec a "-sStop") as [->|?]; [ |
  destruct (String.eqb_spec a "-sT") as [->|?]; [ |
  destruct (String.eqb_spec a "-sP") as [->|?]; [ |
  destruct (String.eqb_spec a "-sR") as [->|?]; [ |
  destruct (String.eqb_spec a "-sF") as [->|?]; [ | ]]]]]]]]]]]]]]]];
  cbn [String.eqb Ascii.eqb Bool.eqb orb is_option].

Ltac operands :=
  repeat match goal with
         | |- context [match ?l with [] => _ | _ :: _ => _ end] =>
             is_var l; destruct l
         end.

Lemma iFiles_set (g : Globals) :
  (forall x, iFiles (set_tStart x g) = iFiles g) /\
  (forall x, iFiles (set_tStop x g) = iFiles g) /\
  (forall x, iFiles (set_tOut x g) = iFiles g) /\
  (forall x, iFiles (set_dt x g) = iFiles g) /\
  (forall x, iFiles (set_T x g) = iFiles g) /\
  (forall x, iFiles (set_oFile x g) = iFiles g) /\
  (forall x y z, iFiles (set_filling x y z g) = iFiles g) /\
  (forall x y, iFiles (set_saturation x y g) = iFiles g) /\
  (forall x, iFiles (set_samplesIFile x g) = iFiles g) /\
  (forall x, iFiles (set_sStartDt x g) = iFiles g) /\
  (forall x, iFiles (set_sStopDt x g) = iFiles g) /\
  (forall x, iFiles (set_sT x g) = iFiles g) /\
  (forall x, iFiles (set_sP x g) = iFiles g) /\
  (forall x, iFiles (set_sR x g) = iFiles g) /\
  (forall x, iFiles (set_sF x g) = iFiles g) /\
  (forall x, iFiles (push_back x g) = iFiles g ++ [x]).
Proof. destruct g. repeat split. Qed.

(** When a prefix of the arguments is parsed to its end, the arguments
    after it are parsed from the globals it left. *)
Lemma option_loop_app (pre : list string) :
  forall (g g' : Globals) (post : list string),
    option_loop pre g = Parsed g' ->
    option_loop (pre ++ post) g = option_loop post g'.
Proof.
  induction pre as [pre IH] using args_ind. intros g g' post.
  destruct pre as [|a rest].
  - cbn. intros H. injection H as <-. reflexivity.
  - rewrite <- app_comm_cons. cbn [Cli.option_loop]. by_option a.
    all: operands; cbn [app]; try destruct (is_option a); try discriminate.
    all: intros H; apply IH; [cbn; lia | exact H].
Qed.

(** The input files of a parse that reaches the end of the arguments are
    the ones there were, followed by arguments that do not begin with a
    dash, in the order of the command line. *)
Lemma option_loop_files (args : list string) :
  forall (g g' : Globals),
    option_loop args g = Parsed g' ->
    exists fs, iFiles g' = iFiles g ++ fs /\ sublist fs args /\
               Forall (fun x => is_option x = false) fs.
Proof.
  induction args as [args IH] using args_ind. intros g g'.
  destruct args as [|a rest].
  - cbn. intros H. injection H as <-. exists [].
    rewrite app_nil_r. repeat constructor.
  - cbn [Cli.option_loop]. by_option a.
    all: operands; try destruct (is_option a) eqn:Ha; try discriminate.
    all: intros H; apply IH in H; [ | cbn; lia].
    all: destruct H as (fs & Hf & Hs & Hp).
    all: pose proof (iFiles_set g) as Hset.
    17: { exists (a :: fs). split.
          - rewrite Hf. destruct Hset as (_&_&_&_&_&_&_&_&_&_&_&_&_&_&_&->).
            rewrite <- app_assoc. reflexivity.
          - split; [constructor; exact Hs | constructor; assumption]. }
    all: exists fs; split; [rewrite Hf; f_equal; apply Hset | ].
    all: split; [ | exact Hp].
    all: repeat apply sublist_cons; exact Hs.
Qed.

(** The option loop calls [exit] only for an argument that begins with a
    dash and is none of the options, and with code 1. *)
Lemma option_loop_exit (args : list string) :
  forall (g : Globals) (code : Z) (msg : message),
    option_loop args g = Exit code msg ->
    code = 1 /\
    exists a, msg = UnknownOption a /\ In a args /\ is_option a = true /\
              ~ In a operand_options.
Proof.
  induction args as [args IH] using args_ind. intros g code msg.
  destruct args as [|a rest]; [discriminate | ].
  cbn [Cli.option_loop]. by_option a.
  all: operands; try discriminate.
  17: { destruct (is_option a) eqn:Ha.
        - intros H. injection H as <- <-. split; [reflexivity | ].
          exists a. split; [reflexivity | ]. split; [left; reflexivity | ].
          split; [exact Ha | ]. cbn. intuition congruence.
        - intros H. apply IH in H; [ | cbn; lia].
          destruct H as (-> & b & -> & Hin & Hb). split; [reflexivity | ].
          exists b. split; [reflexivity | ]. split; [right; exact Hin | ].
          exact Hb. }
  all: intros H; apply IH in H; [ | cbn; lia].
  all: destruct H as (-> & b & -> & Hin & Hb); split; [reflexivity | ].
  all: exists b; split; [reflexivity | ]; split; [ | exact Hb].
  all: cbn; tauto.
Qed.

Lemma is_help_spec (a : string) :
  is_help a = true <->
  a = "-h"%string \/ a = "-help"%string \/ a = "--help"%string.
Proof.
  unfold is_help.
  destruct (String.eqb_spec a "-h"), (String.eqb_spec a "-help"),
    (String.eqb_spec a "--help"); cbn; intuition congruence.
Qed.

Lemma is_help_option (a : string) : is_help a = true -> is_option a = true.
Proof.
  intros H. apply is_help_spec in H. destruct H as [->|[->| ->]]; reflexivity.
Qed.

Lemma operand_option_not_help (o : string) :
  In o operand_options -> is_help o = false /\ is_option o = true.
Proof.
  cbn. intros H.
  repeat (destruct H as [<-|H]; [split; reflexivity | ]). destruct H.
Qed.

Lemma operand_option_last (o : string) (g : Globals) :
  In o operand_options -> option_loop [o] g = PastEnd.
Proof.
  cbn [In operand_options]. intros H.
  repeat (destruct H as [<-|H]; [reflexivity | ]). destruct H.
Qed.

Lemma unknown_option_exit (o : string) (post : list string) (g : Globals) :
  is_option o = true -> ~ In o operand_options ->
  option_loop (o :: post) g = Exit 1 (UnknownOption o).
Proof.
  intros Ho Hn. cbn [Cli.option_loop]. revert Hn. by_option o.
  all: try (intros Hn; exfalso; apply Hn; cbn; tauto).
  rewrite Ho. reflexivity.
Qed.

Lemma plain_option_loop (args : list string) :
  forall g : Globals,
    Forall (fun a => is_option a = false) args ->
    option_loop args g = Parsed (fold_left (fun g a => push_back a g) args g).
Proof.
  induction args as [|a rest IH]; intros g Hp; [reflexivity | ].
  apply Forall_cons in Hp. destruct Hp as [Ha Hp].
  cbn [Cli.option_loop fold_left]. revert Ha. by_option a.
  all: try discriminate.
  intros ->. apply IH, Hp.
Qed.

Lemma iFiles_fold (args : list string) :
  forall g : Globals,
    iFiles (fold_left (fun g a => push_back a g) args g) = iFiles g ++ args
    /\ saturation (fold_left (fun g a => push_back a g) args g) = saturation g
    /\ filling (fold_left (fun g a => push_back a g) args g) = filling g.
Proof.
  induction args as [|a rest IH]; intros g; cbn [fold_left].
  - rewrite app_nil_r. repeat split.
  - destruct (IH (push_back a g)) as (-> & -> & ->).
    destruct g; cbn. rewrite <- app_assoc. repeat split.
Qed.

(** X13.  [parseArgs] exits with code 0 exactly when one of the arguments
    is [-h], [-help] or [--help], and then prints the usage text, wherever
    that argument stands and whatever the other arguments are (lines
    240-321 run before any option is read). *)
Theorem help_exits_first (args : list string) (g : Globals) (msg : message) :
  parseArgs args g = Exit 0 msg <->
  msg = Usage /\
  exists a, In a args /\
            (a = "-h"%string \/ a = "-help"%string \/ a = "--help"%string).
Proof.
  unfold Cli.parseArgs. split.
  - destruct (existsb is_help args) eqn:Hh.
    + intros H. injection H as <-. split; [reflexivity | ].
      apply existsb_exists in Hh. destruct Hh as (a & Hin & Ha).
      exists a. split; [exact Hin | apply is_help_spec, Ha].
    + destruct (option_loop args g) as [g'|c m|] eqn:Hl.
      * destruct (length (iFiles g') =? 0)%nat; [discriminate | ].
        destruct ((saturation g' =? 1) && (filling g' =? 0)); discriminate.
      * intros H. injection H as -> ->.
        apply option_loop_exit in Hl. destruct Hl as [Hc _]. discriminate Hc.
      * discriminate.
  - intros (-> & a & Hin & Ha).
    assert (Hh : existsb is_help args = true).
    { apply existsb_exists. exists a. split; [exact Hin | ].
      apply is_help_spec, Ha. }
    rewrite Hh. reflexivity.
Qed.

(** X14.  When [parseArgs] returns, there is at least one input file, the
    input files are arguments that do not begin with a dash, in the order of
    the command line, and a saturation curve comes with a filling model
    (lines 416-433). *)
Theorem parsed_input_files (args : list string) (g g' : Globals) :
  iFiles g = [] ->
  parseArgs args g = Parsed g' ->
  iFiles g' <> [] /\ sublist (iFiles g') args /\
  Forall (fun x => is_option x = false) (iFiles g') /\
  (saturation g' = 1 -> filling g' <> 0).
Proof.
  intros Hg. unfold Cli.parseArgs.
  destruct (existsb is_help args); [discriminate | ].
  destruct (option_loop args g) as [g1|c m|] eqn:Hl; try discriminate.
  destruct (length (iFiles g1)) as [|n] eqn:Hn; [discriminate | ].
  cbn [Nat.eqb].
  destruct (Z.eqb_spec (saturation g1) 1) as [Hs|Hs];
    destruct (Z.eqb_spec (filling g1) 0) as [Hf|Hf]; cbn [andb];
    try discriminate.
  all: intros H; injection H as <-.
  all: apply option_loop_files in Hl; destruct Hl as (fs & Hf' & Hsub & Hp).
  all: rewrite Hg in Hf'; cbn [app] in Hf'; rewrite Hf'.
  all: rewrite Hf' in Hn.
  all: split; [intros ->; discriminate Hn | ].
  all: split; [exact Hsub | ]; split; [exact Hp | ]; intros; congruence.
Qed.

(** X15.  Arguments none of which begins with a dash are all taken as
    input files, in their order, after the ones there were, and no other
    global is changed. *)
Theorem plain_arguments_are_input_files (args : list string) (g : Globals) :
  Forall (fun a => is_option a = false) args ->
  args <> [] ->
  ~ (saturation g = 1 /\ filling g = 0) ->
  let g' := fold_left (fun g a => push_back a g) args g in
  parseArgs args g = Parsed g' /\ iFiles g' = iFiles g ++ args.
Proof.
  intros Hp Hne Hsat g'. destruct (iFiles_fold args g) as (Hi & Hs & Hf).
  fold g' in Hi, Hs, Hf. split; [ | exact Hi].
  unfold Cli.parseArgs.
  assert (Hh : existsb is_help args = false).
  { apply not_true_is_false. intros Hh. apply existsb_exists in Hh.
    destruct Hh as (a & Hin & Ha). apply is_help_option in Ha.
    rewrite Forall_forall in Hp. apply list_elem_of_In in Hin.
    rewrite (Hp a Hin) in Ha. discriminate. }
  rewrite Hh, (plain_option_loop args g Hp). fold g'.
  rewrite Hi, Hs, Hf, length_app.
  destruct args as [|a rest]; [congruence | ].
  replace (length (iFiles g) + length (a :: rest) =? 0)%nat with false
    by (symmetry; apply Nat.eqb_neq; cbn; lia).
  destruct (Z.eqb_spec (saturation g) 1), (Z.eqb_spec (filling g) 0);
    cbn [andb]; tauto.
Qed.


(** X17.  An option that is the last argument and lacks its operands is
    not reported: each of the sixteen options reads its first operand at
    [argv[argc]]. *)
Theorem option_without_operand_reads_past_end (pre : list string)
    (o : string) (g g' : Globals) :
  existsb is_help pre = false ->
  option_loop pre g = Parsed g' ->
  In o operand_options ->
  parseArgs (pre ++ [o]) g = PastEnd.
Proof.
  intros Hh Hl Ho. unfold Cli.parseArgs.
  rewrite existsb_app, Hh. cbn [existsb orb].
  rewrite (proj1 (operand_option_not_help o Ho)). cbn [orb].
  rewrite (option_loop_app _ _ _ _ Hl), (operand_option_last o g' Ho).
  reflexivity.
Qed.

(** X18.  An argument that begins with a dash and is none of the options
    ends [parseArgs] with code 1 and the message naming it, whatever follows
    it on the command line. *)
Theorem unknown_option_exits (pre post : list string) (o : string)
    (g g' : Globals) :
  existsb is_help (pre ++ o :: post) = false ->
  option_loop pre g = Parsed g' ->
  is_option o = true -> ~ In o operand_options ->
  parseArgs (pre ++ o :: post) g = Exit 1 (UnknownOption o).
Proof.
  intros Hh Hl Ho Hn. unfold Cli.parseArgs. rewrite Hh.
  rewrite (option_loop_app _ _ _ _ Hl), (unknown_option_exit o post g' Ho Hn).
  reflexivity.
Qed.

End Parse.

Lemma help_exits_first_witness :
  Cli.parseArgs atoi_digits atof_digits set_31
    ["-bogus"; "-dt"; "-h"]%string initial = Exit 0 Usage.
Proof.
  apply (proj2 (help_exits_first atoi_digits atof_digits set_31
                  ["-bogus"; "-dt"; "-h"]%string initial Usage)).
  split; [reflexivity | ]. exists "-h"%string. cbn. tauto.
Defined.

Lemma parsed_input_files_witness :
  exists g', Cli.parseArgs atoi_digits atof_digits set_31 argv_dt100 initial
             = Parsed g' /\
             iFiles g' = ["kp.wdc"]%string /\ sublist (iFiles g') argv_dt100.
Proof.
  destruct (Cli.parseArgs atoi_digits atof_digits set_31 argv_dt100 initial)
    as [g'| |] eqn:H; try (vm_compute in H; discriminate H).
  exists g'. split; [reflexivity | ]. split.
  - vm_compute in H. injection H as <-. reflexivity.
  - apply (parsed_input_files atoi_digits atof_digits set_31 argv_dt100
             initial g' eq_refl H).
Defined.

Lemma plain_arguments_are_input_files_witness :
  exists g', Cli.parseArgs atoi_digits atof_digits set_31
               ["jan.wdc"; "feb.wdc"]%string initial = Parsed g' /\
             iFiles g' = ["jan.wdc"; "feb.wdc"]%string.
Proof.
  eexists.
  apply (plain_arguments_are_input_files atoi_digits atof_digits set_31
           ["jan.wdc"; "feb.wdc"]%string initial).
  - repeat constructor.
  - discriminate.
  - cbn. intros [H _]. discriminate H.
Defined.


Lemma option_without_operand_reads_past_end_witness :
  Cli.parseArgs atoi_digits atof_digits set_31
    (["kp.wdc"]%string ++ ["-o"]%string) initial = PastEnd.
Proof.
  apply (option_without_operand_reads_past_end atoi_digits atof_digits set_31
           ["kp.wdc"]%string "-o"%string initial
           (push_back "kp.wdc"%string initial)).
  - reflexivity.
  - reflexivity.
  - cbn. tauto.
Defined.

Lemma unknown_option_exits_witness :
  Cli.parseArgs atoi_digits atof_digits set_31
    (["kp.wdc"]%string ++ "-x"%string :: ["-o"]%string) initial
  = Exit 1 (UnknownOption "-x"%string).
Proof.
  apply (unknown_option_exits atoi_digits atof_digits set_31
           ["kp.wdc"]%string ["-o"]%string "-x"%string initial
           (push_back "kp.wdc"%string initial)).
  - reflexivity.
  - reflexivity.
  - reflexivity.
  - cbn. intuition discriminate.
Defined.

End CliProps.


(* ===================================================================== *)
(** * Properties of a run from its command line                           *)
(* ===================================================================== *)

Module RunProps.
Import Ieee Sched SchedAux Examples Run RunEx.

Lemma whole_positive (x : spec_float) (n : Z) :
  whole x = Some n -> flt (S754_zero false) x = true -> 0 < n.
Proof.
  destruct x as [s|s| |s m e]; cbn; try discriminate.
  destruct s; [discriminate | ]. intros H _. cbn [cond_Zopp] in H.
  destruct (Z.leb_spec 0 e) as [He|He].
  - injection H as <-. apply Z.mul_pos_pos; [lia | ].
    apply Z.pow_pos_nonneg; lia.
  - destruct (Z.eqb_spec (Zpos m mod 2 ^ (- e)) 0) as [Hm|]; [ | discriminate].
    injection H as <-.
    assert (Hd : 0 < 2 ^ (- e)) by (apply Z.pow_pos_nonneg; lia).
    pose proof (Z.div_mod (Zpos m) (2 ^ (- e)) ltac:(lia)) as Hq.
    rewrite Hm in Hq. nia.
Qed.

Lemma options_of_fields (records : list KP) (g : Cli.Globals) (a : Options) :
  options_of records g = Some a ->
  whole (Cli.dt g) = Some (arg_dt a) /\
  arg_filling a = (Cli.filling g =? 1).
Proof.
  unfold options_of. intros H.
  destruct (whole (Cli.dt g)) as [n|]; [ | discriminate H].
  destruct (whole (Cli.T g)); [ | discriminate H].
  destruct (whole (Cli.sStartDt g)); [ | discriminate H].
  destruct (whole (Cli.sStopDt g)); [ | discriminate H].
  cbn in H. injection H as <-. split; reflexivity.
Qed.

(** X11.  A run with [-f] whose periods and durations are whole numbers of
    seconds and whose output period [dt] is above zero ends: after at most
    [remaining] iterations the loop is left with the next wake time after
    [tStop], whatever the index file and the other options are.  A period
    or duration that is not a whole number of seconds (a fraction too small
    to move a due time, an infinite [-T]) has no [options_of] and is not
    covered. *)
Theorem run_ends_for_positive_period
    (kp_find : list KP -> aTime -> Z) (records : list KP) (g : Cli.Globals)
    (a : Options) (e : Env) (s : State) (fuel : nat) :
  options_of records g = Some a ->
  main_init kp_find a = Ok (e, s) ->
  Cli.filling g = 1 ->
  flt (S754_zero false) (Cli.dt g) = true ->
  (remaining e s < fuel)%nat ->
  exists s', snd (main kp_find fuel a) = Finished s' /\ tStop e < tNext s'.
Proof.
  intros Ha Hinit Hf Hdt Hfuel.
  destruct (options_of_fields _ _ _ Ha) as [Hw Hfa].
  apply (SchedMore.main_ends kp_find a e s fuel Hinit).
  - rewrite Hfa, Hf. reflexivity.
  - apply (whole_positive _ _ Hw Hdt).
  - exact Hfuel.
Qed.

Lemma run_ends_for_positive_period_witness :
  Cli.parseArgs CliEx.atoi_digits CliEx.atof_digits CliEx.set_31
    CliEx.argv_dt100 Cli.initial = Cli.Parsed globals_dt100 /\
  options_of two_records globals_dt100 = Some options_dt100 /\
  exists s', snd (main find_first 18 options_dt100) = Finished s' /\
             tStop env_dt100 < tNext s'.
Proof.
  split; [vm_compute; reflexivity | ]. split; [vm_compute; reflexivity | ].
  apply (run_ends_for_positive_period find_first two_records globals_dt100
           options_dt100 env_dt100 s0_globals_dt100 18).
  - vm_compute. reflexivity.
  - vm_compute. reflexivity.
  - reflexivity.
  - reflexivity.
  - vm_compute. lia.
Defined.

End RunProps.
